(** * IT asset merger (app.py): a shallow embedding and its properties

    The program is a Streamlit script over pandas.  The functions of
    [app.py] are embedded one by one, under their own names:

      - [load_excel_or_csv], [concat_uploads]   (lines 46-65)
      - [apply_serial_rule]                     (lines 71-87)
      - [get_font_path], [build_repair_pdf]     (lines 29-40, 93-108)
      - the script body: the upload gate (122-127, 220-221), the three
        status counters (145-147), the two grouped counts (177, 188) and
        the PDF button (208-218).

    pandas, Streamlit, fpdf and the file decoders are libraries, not code
    of the program.  The pandas operations the program calls are modelled
    on a small table type ([DataFrame]); the decoders, the file system
    behind the font cache and the PDF writer are parameters. *)

From Stdlib Require Import String Ascii ZArith.
From stdpp Require Import base option list strings pretty.

Local Open Scope string_scope.
Local Open Scope list_scope.
Local Open Scope nat_scope.

(* ===================================================================== *)
(** ** Python strings *)
(* ===================================================================== *)

(** A Python [str] is kept as its UTF-8 bytes (Rocq's [string]).  The
    operations the program uses on text are prefix and substring tests,
    slicing, concatenation and [lower()].  Substring tests on UTF-8 bytes
    agree with substring tests on code points.  [lower] maps the ASCII
    capitals.  Python's [lower()] also changes capitals outside ASCII,
    into text that stays outside ASCII but for U+212A, which gives [k],
    and U+0130, which gives [i] followed by U+0307: neither can complete
    an occurrence of ["serial"], so [("serial" in c.lower())] is the
    same under both. *)
Module Py.

(** [s.startswith(p)] *)
Fixpoint startswith (p s : string) : bool :=
  match p, s with
  | EmptyString, _ => true
  | String _ _, EmptyString => false
  | String a p', String b s' => if Ascii.eqb a b then startswith p' s' else false
  end.

(** [sub in s] *)
Fixpoint contains (sub s : string) : bool :=
  startswith sub s
  || match s with
     | EmptyString => false
     | String _ s' => contains sub s'
     end.

(** [s.find(sub)]: the lowest index where [sub] starts, if any. *)
Fixpoint find (sub s : string) : option nat :=
  if startswith sub s then Some 0
  else match s with
       | EmptyString => None
       | String _ s' => S <$> find sub s'
       end.

(** The slices [s[:n]] and [s[n:]]. *)
Fixpoint take (n : nat) (s : string) : string :=
  match n, s with
  | S n', String a s' => String a (take n' s')
  | _, _ => EmptyString
  end.

Fixpoint drop (n : nat) (s : string) : string :=
  match n, s with
  | S n', String _ s' => drop n' s'
  | _, _ => s
  end.

(** [s.split(sep, 1)] for a non-empty [sep]: cut at the first occurrence. *)
Definition split1 (sep s : string) : list string :=
  match find sep s with
  | Some i => [take i s; drop (i + String.length sep) s]
  | None => [s]
  end.

(** [c.lower()] on one character and on a string. *)
Definition lower_char (c : ascii) : ascii :=
  let n := nat_of_ascii c in
  if (65 <=? n) && (n <=? 90) then ascii_of_nat (n + 32) else c.

Fixpoint lower (s : string) : string :=
  match s with
  | EmptyString => EmptyString
  | String a s' => String (lower_char a) (lower s')
  end.

(** [sep.join(parts)] *)
Fixpoint join (sep : string) (parts : list string) : string :=
  match parts with
  | [] => ""
  | [p] => p
  | p :: rest => p +:+ sep +:+ join sep rest
  end.

(** Truth value of a string in a condition: empty is false. *)
Definition truthy (s : string) : bool :=
  match s with EmptyString => false | _ => true end.

End Py.

(** What the spec calls an occurrence "case-insensitively": some slice of
    the name lowers to the keyword. *)
Definition occurs_in (sub s : string) : Prop :=
  ∃ pre post, s = pre +:+ sub +:+ post.

Definition occurs_ignoring_case (kw s : string) : Prop :=
  ∃ pre mid post, s = pre +:+ mid +:+ post ∧ Py.lower mid = kw.

(* ===================================================================== *)
(** ** Exceptions *)
(* ===================================================================== *)

(** A raised Python exception: its class and the text [str(exc)] gives. *)
Record exn := Exn { exn_class : string; exn_text : string }.

Inductive result (A : Type) : Type :=
| Ok (a : A)
| Raise (e : exn).
Arguments Ok {A} a.
Arguments Raise {A} e.

#[global] Instance result_ret : MRet result := λ A a, Ok a.

#[global] Instance result_bind : MBind result := λ A B k m,
  match m with
  | Ok a => k a
  | Raise e => Raise e
  end.

Definition KeyError (key : string) : exn := Exn "KeyError" key.
Definition IndexError : exn := Exn "IndexError" "list index out of range".
Definition ValueError (msg : string) : exn := Exn "ValueError" msg.

(** [xs[i]] on a Python list. *)
Definition py_index {A} (xs : list A) (i : nat) : result A :=
  match xs !! i with
  | Some x => Ok x
  | None => Raise IndexError
  end.

(* ===================================================================== *)
(** ** Tables *)
(* ===================================================================== *)

(** A cell is text, a number or the missing value (pandas' NaN).  Numbers
    are one abstract type [num], with the equality pandas compares and
    groups them by and the text Python's [str] gives them ([str_num]
    below): the program only compares cells and renders them. *)
Inductive value {num : Type} : Type :=
| VText (s : string)
| VNum (n : num)
| NaN.
Arguments value : clear implicits.

Abbreviation Series num := (list (value num)).

(** A table: the column labels in order and the rows in index order,
    each row holding one cell per column ([rectangular] below).  Column
    labels are text, as in the spec's data model, and pairwise distinct
    in every table the decoders return (repeated headers are renamed
    [x], [x.1], ...) and in every table built from those here; a label
    is looked up at its first position. *)
Record DataFrame {num : Type} := mkDataFrame {
  columns : list string;
  rows : list (list (value num))
}.
Arguments DataFrame : clear implicits.
Arguments mkDataFrame {num} columns rows.

Section Pandas.

Context {num : Type} `{EqDecision num}.
(** [str(x)] for a numeric cell. *)
Variable str_num : num → string.

Abbreviation value := (value num).
Abbreviation Series := (list value).
Abbreviation DataFrame := (DataFrame num).

#[global] Instance value_eq_dec : EqDecision value.
Proof. solve_decision. Defined.

(** [str(v)], which is also what [astype(str)] and an f-string give. *)
Definition py_str (v : value) : string :=
  match v with
  | VText s => s
  | VNum n => str_num n
  | NaN => "nan"
  end.

(** [len(df)] *)
Definition len (df : DataFrame) : nat := length (rows df).

(** [df.empty]: some axis has length zero. *)
Definition empty (df : DataFrame) : bool :=
  (len df =? 0) || (length (columns df) =? 0).

(** [df.columns.get_loc(c)]: the position of a label. *)
Fixpoint get_loc (cols : list string) (c : string) : option nat :=
  match cols with
  | [] => None
  | c' :: cols' => if decide (c' = c) then Some 0 else S <$> get_loc cols' c
  end.

(** The cell of a row at a position. *)
Definition at_pos (i : nat) (r : list value) : value := default NaN (r !! i).

(** [row[c]] for a row of a table with the labels [cols]. *)
Definition row_get (cols : list string) (r : list value) (c : string) : option value :=
  i ← get_loc cols c; Some (at_pos i r).

(** [df[c]]: the column as a series, or KeyError. *)
Definition getitem (df : DataFrame) (c : string) : result Series :=
  match get_loc (columns df) c with
  | Some i => Ok (at_pos i <$> rows df)
  | None => Raise (KeyError c)
  end.

(** [df[c] = s] for a series [s] on the table's own index: overwrite
    the column in place, or append a new one. *)
Definition setitem (df : DataFrame) (c : string) (s : Series) : DataFrame :=
  match get_loc (columns df) c with
  | Some i => mkDataFrame (columns df) (zip_with (λ r v, <[i := v]> r) (rows df) s)
  | None => mkDataFrame (columns df ++ [c]) (zip_with (λ r v, r ++ [v]) (rows df) s)
  end.

(** The cell at row [i] and column [c]. *)
Definition cell (df : DataFrame) (i : nat) (c : string) : option value :=
  r ← rows df !! i; row_get (columns df) r c.

(** [s.astype(str)]: a series of Python strings. *)
Definition astype_str (s : Series) : list string := py_str <$> s.

(** A series of Python strings stored as a column. *)
Definition of_strs (s : list string) : Series := VText <$> s.

(** [s == lit] against a string literal: a boolean mask. *)
Definition eq_str (s : Series) (lit : string) : list bool :=
  (λ v, bool_decide (v = VText lit)) <$> s.

(** [mask.sum()] *)
Definition mask_sum (mask : list bool) : nat :=
  length (List.filter id mask).

(** [df[mask]]: the rows where the mask is true. *)
Fixpoint select_rows (rs : list (list value)) (mask : list bool) : list (list value) :=
  match rs, mask with
  | r :: rs', b :: mask' => if b then r :: select_rows rs' mask' else select_rows rs' mask'
  | _, _ => []
  end.

Definition loc_mask (df : DataFrame) (mask : list bool) : DataFrame :=
  mkDataFrame (columns df) (select_rows (rows df) mask).

(** *** pd.concat(frames, ignore_index=True) *)

(** The labels of [cols] that [acc] lacks are appended to it, in
    order: the outer join of the column axes, unsorted. *)
Definition union_columns (acc cols : list string) : list string :=
  foldl (λ acc c, if decide (c ∈ acc) then acc else acc ++ [c]) acc cols.

(** A row relabelled to [new_cols]: a label the row lacks gets NaN. *)
Definition reindex (cols new_cols : list string) (r : list value) : list value :=
  (λ c, default NaN (row_get cols r c)) <$> new_cols.

(** Rows are stacked in list order under the joined column axis and
    renumbered from 0.  No frame to concatenate is a ValueError. *)
Definition pd_concat (frames : list DataFrame) : result DataFrame :=
  match frames with
  | [] => Raise (ValueError "No objects to concatenate")
  | _ =>
      let cols := foldl union_columns [] (columns <$> frames) in
      Ok (mkDataFrame cols (frames ≫= λ df, reindex (columns df) cols <$> rows df))
  end.

(** *** df.groupby(col, dropna=False).size().reset_index(name=...) *)

(** One more row for the key [k]: its group grows, or a new group is
    opened after the ones seen so far. *)
Fixpoint count_key (k : value) (acc : list (value * nat)) : list (value * nat) :=
  match acc with
  | [] => [(k, 1)]
  | (k', n) :: acc' =>
      if decide (k' = k) then (k', S n) :: acc' else (k', n) :: count_key k acc'
  end.

(** The size of each group of equal cells; with [dropna=False] the
    missing value is a key like any other.  pandas then orders the
    groups by key; the order carries no meaning for the result and the
    groups are kept here in order of first appearance. *)
Definition groupby_size (df : DataFrame) (col : string) : result (list (value * nat)) :=
  s ← getitem df col;
  Ok (foldl (λ acc k, count_key k acc) [] s).

(** The frame [reset_index] builds: the group keys under the grouping
    label, their sizes under [name]. *)
Record Aggregation := mkAggregation {
  key_label : string;
  count_label : string;
  groups : list (value * nat)
}.

(** [sizes.reset_index(name=name)] for sizes indexed by [index_label]:
    the index becomes a column next to the one called [name], and
    pandas refuses to insert a label that is already there. *)
Definition reset_index (index_label name : string) (sizes : list (value * nat))
  : result Aggregation :=
  if decide (index_label = name)
  then Raise (ValueError ("cannot insert " +:+ index_label +:+ ", already exists"))
  else Ok (mkAggregation index_label name sizes).

End Pandas.

Arguments Aggregation : clear implicits.

(* ===================================================================== *)
(** ** The Streamlit script *)
(* ===================================================================== *)

Definition bytes := string.

(** What a run of the script puts on the page. *)
Inductive event : Type :=
| st_error (body : string)
| st_warning (body : string)
| st_info (body : string)
| st_download_button (label : string) (data : bytes) (file_name mime : string).

(** How a run (or a part of it) ends: it returns, [st.stop()] halted the
    script, or an exception nobody caught ended it. *)
Inductive outcome (A : Type) : Type :=
| Done (a : A)
| Stopped
| Crashed (e : exn).
Arguments Done {A} a.
Arguments Stopped {A}.
Arguments Crashed {A} e.

Record script (A : Type) : Type := Script {
  shown : list event;
  ended : outcome A
}.
Arguments Script {A} shown ended.
Arguments shown {A} _.
Arguments ended {A} _.

#[global] Instance script_ret : MRet script := λ A a, Script [] (Done a).

#[global] Instance script_bind : MBind script := λ A B k m,
  match ended m with
  | Done a => Script (shown m ++ shown (k a)) (ended (k a))
  | Stopped => Script (shown m) Stopped
  | Crashed e => Script (shown m) (Crashed e)
  end.

Definition show (e : event) : script () := Script [e] (Done ()).
Definition st_stop {A} : script A := Script [] Stopped.

(** A library call inside the script: its exception, uncaught, ends the run. *)
Definition call {A} (r : result A) : script A :=
  match r with
  | Ok a => Script [] (Done a)
  | Raise e => Script [] (Crashed e)
  end.

(** An uploaded file: its name and what [read()] returns. *)
Record UploadedFile := mkUploadedFile { name : string; content : bytes }.

(** The font file on disk and the network behind [get_font_path]. *)
Record FontStore := mkFontStore {
  (** [Path("fonts/DejaVuSans.ttf").exists()] *)
  font_exists : bool;
  (** the [try] block: [mkdir] then [urlretrieve(FONT_URL, font_path)] *)
  fetch_font : string → string → result ()
}.

Definition FONT_URL : string :=
  "https://github.com/dejavu-fonts/dejavu-fonts/raw/master/ttf/DejaVuSans.ttf".

(** The two status literals of lines 146-147 (and 103). *)
Definition NEEDS_REPAIR : string := "수리 필요".
Definition TO_DISPOSE : string := "폐기 예정".

Section App.

Context {num : Type} `{EqDecision num}.
Variable str_num : num → string.

Abbreviation value := (value num).
Abbreviation DataFrame := (DataFrame num).

(** [pd.read_excel(io.BytesIO(b), engine="openpyxl")] and
    [pd.read_csv(io.BytesIO(b))]. *)
Variable read_excel : bytes → result DataFrame.
Variable read_csv : bytes → result DataFrame.

(** The document fpdf writes with the font at a path, a title cell and
    one [multi_cell] per line: [pdf.output(dest="S").encode("latin-1")]. *)
Variable fpdf_output : string → string → list string → bytes.

(** *** get_font_path (lines 29-40) *)

(** [st.cache_resource] keeps the first call's result for the later
    ones; one call is modelled. *)
Definition get_font_path (fs : FontStore) : script (option string) :=
  let font_path := "fonts/DejaVuSans.ttf" in
  if font_exists fs then mret (Some font_path)
  else
    match fetch_font fs FONT_URL font_path with
    | Ok _ => mret (Some font_path)
    | Raise exc =>
        show (st_warning ("PDF 생성용 폰트 준비에 실패했습니다: " +:+ exn_text exc));;
        mret None
    end.

(** *** load_excel_or_csv (lines 46-51) *)

Definition load_excel_or_csv (file_bytes : bytes) : result DataFrame :=
  match read_excel file_bytes with
  | Ok df => Ok df
  | Raise _ => read_csv file_bytes
  end.

(** The file [f] decodes to [df], by either decoder. *)
Definition decodes (f : UploadedFile) (df : DataFrame) : Prop :=
  load_excel_or_csv (content f) = Ok df.

(** *** concat_uploads (lines 54-65) *)

(** The [for] loop, with the list [frames] it appends to. *)
Fixpoint read_frames (files : list UploadedFile) (frames : list DataFrame)
  : script (option (list DataFrame)) :=
  match files with
  | [] => mret (Some frames)
  | f :: files' =>
      let content := content f in
      match load_excel_or_csv content with
      | Ok df => read_frames files' (frames ++ [df])
      | Raise exc =>
          show (st_error (name f +:+ " 읽기 오류: " +:+ exn_text exc));;
          mret None
      end
  end.

Definition concat_uploads (files : list UploadedFile) : script (option DataFrame) :=
  read ← read_frames files [];
  match read with
  | None => mret None
  | Some [] => mret None
  | Some frames => df ← call (pd_concat frames); mret (Some df)
  end.

(** *** apply_serial_rule (lines 71-87) *)

Definition is_serial (c : string) : bool :=
  Py.contains "serial" (Py.lower c) || Py.contains "시리얼" c.

(** The table is updated in place and returned; the model returns the
    updated table. *)
Definition apply_serial_rule (df : DataFrame) (rule : string) : result DataFrame :=
  let serial_cols := List.filter is_serial (columns df) in
  match serial_cols with
  | [] => Ok df
  | col :: _ =>
      if Py.startswith "prefix=" rule then
        prefix ← py_index (Py.split1 "prefix=" rule) 1;
        s ← getitem df col;
        Ok (setitem df col (of_strs ((λ t, prefix +:+ t) <$> astype_str str_num s)))
      else if Py.startswith "suffix=" rule then
        suffix ← py_index (Py.split1 "suffix=" rule) 1;
        s ← getitem df col;
        Ok (setitem df col (of_strs ((λ t, t +:+ suffix) <$> astype_str str_num s)))
      else Ok df
  end.

(** The table with the cell at position [i] of every row replaced by
    the text [g] makes of the cell's text: what the assignment
    [df[col] = ...] of lines 83 and 86 amounts to, row by row. *)
Definition rewrite_with (g : string → string) (i : nat) (df : DataFrame) : DataFrame :=
  mkDataFrame (columns df)
    ((λ r, <[i := VText (g (py_str str_num (at_pos i r)))]> r) <$> rows df).

(** *** build_repair_pdf (lines 93-108) *)

Definition build_repair_pdf (fs : FontStore) (df : DataFrame) (status_col : string)
  : script (option bytes) :=
  font_path ← get_font_path fs;
  match font_path with
  | None => mret None
  | Some font_path =>
      if negb (Py.truthy font_path) then mret None
      else
        status ← call (getitem df status_col);
        let subset := loc_mask df (eq_str status NEEDS_REPAIR) in
        let lines :=
          (λ row, Py.join ", "
             ((λ col, col +:+ ": " +:+ py_str str_num (default NaN (row_get (columns subset) row col)))
                <$> columns subset))
            <$> rows subset in
        mret (Some (fpdf_output font_path "수리 대상자 목록" lines))
  end.

(** *** The script body *)

(** Lines 122-127 and 220-221: the upload gate.  [rest] is the script
    from line 129 on, run on the merged table. *)
Definition main (uploaded_files : list UploadedFile) (rest : DataFrame → script ())
  : script () :=
  match uploaded_files with
  | _ :: _ =>
      df ← concat_uploads uploaded_files;
      match df with
      | None =>
          show (st_warning "데이터가 비어 있거나 읽기에 실패했습니다.");; st_stop
      | Some df =>
          if empty df then
            show (st_warning "데이터가 비어 있거나 읽기에 실패했습니다.");; st_stop
          else rest df
      end
  | [] => show (st_info "좌측의 업로드 영역을 통해 여러 엑셀/CSV 파일을 올려 주세요.")
  end.

(** Lines 145-147: [total_devices], [need_repair], [to_dispose]. *)
Definition status_counts (df : DataFrame) (status_col : string) : result (nat * nat * nat) :=
  let total_devices := len df in
  repair ← getitem df status_col;
  let need_repair := mask_sum (eq_str repair NEEDS_REPAIR) in
  dispose ← getitem df status_col;
  let to_dispose := mask_sum (eq_str dispose TO_DISPOSE) in
  Ok (total_devices, need_repair, to_dispose).

(** Line 177: [dept_count]; line 188: [type_count]. *)
Definition dept_count (df : DataFrame) (dept_col : string) : result (Aggregation num) :=
  sizes ← groupby_size df dept_col;
  reset_index dept_col "count" sizes.

Definition type_count (df : DataFrame) (type_col : string) : result (Aggregation num) :=
  sizes ← groupby_size df type_col;
  reset_index type_col "count" sizes.

(** Lines 208-218, once the button is pressed. *)
Definition pdf_button (fs : FontStore) (df : DataFrame) (status_col : string) : script () :=
  pdf_bytes ← build_repair_pdf fs df status_col;
  match pdf_bytes with
  | Some data =>
      if Py.truthy data then
        show (st_download_button "PDF 다운로드" data "repair_list.pdf" "application/pdf")
      else show (st_error "PDF 생성에 실패했습니다. 인터넷 연결을 확인 후 다시 시도하세요.")
  | None => show (st_error "PDF 생성에 실패했습니다. 인터넷 연결을 확인 후 다시 시도하세요.")
  end.

End App.

(* ===================================================================== *)
(** ** More of the script body *)
(* ===================================================================== *)

(** Lines 160-161: [any(k in c.lower() for k in keywords)].  None of
    the ASCII keywords holds a [k] or an [i], the two ASCII letters
    Python's [lower()] can make of a character outside ASCII, so
    [Py.lower] decides these tests as Python does. *)
Definition has_keyword (keywords : list string) (c : string) : bool :=
  existsb (λ k, Py.contains k (Py.lower c)) keywords.

Definition dept_candidates {num} (df : DataFrame num) : list string :=
  List.filter (has_keyword ["dept"; "department"; "부서"]) (columns df).

Definition type_candidates {num} (df : DataFrame num) : list string :=
  List.filter (has_keyword ["model"; "type"; "종류"; "모델"]) (columns df).

(** Lines 166 and 171: [candidates or list(df.columns)], the options of
    a selector; its default ([index=0]) is the first of them. *)
Definition options_or (candidates cols : list string) : list string :=
  match candidates with
  | [] => cols
  | _ :: _ => candidates
  end.

Definition dept_options {num} (df : DataFrame num) : list string :=
  options_or (dept_candidates df) (columns df).

Definition type_options {num} (df : DataFrame num) : list string :=
  options_or (type_candidates df) (columns df).

(** Line 105: the text of one row in the PDF, [", ".join(...)] over the
    columns of the table the row is from. *)
Definition pdf_line {num} (str_num : num → string) (cols : list string)
    (row : list (value num)) : string :=
  Py.join ", "
    ((λ col, col +:+ ": " +:+ py_str str_num (default NaN (row_get cols row col))) <$> cols).

(** A character [lower()] leaves alone and never produces from another:
    anything but an ASCII letter. *)
Definition caseless (x : ascii) : bool :=
  let n := nat_of_ascii x in
  negb (((65 <=? n) && (n <=? 90)) || ((97 <=? n) && (n <=? 122))).

(* ===================================================================== *)
(** ** The spec's words *)
(* ===================================================================== *)

(** A rule "of the form [kw<text>]". *)
Definition starts_with (kw s : string) : Prop := ∃ text, s = kw +:+ text.

(** A column name that "signals serial number": it contains "serial"
    case-insensitively, or the token "시리얼". *)
Definition serial_name (c : string) : Prop :=
  occurs_ignoring_case "serial" c ∨ occurs_in "시리얼" c.

(** A column name that holds one of the keywords, case-insensitively. *)
Definition keyword_name (keywords : list string) (c : string) : Prop :=
  ∃ k, k ∈ keywords ∧ occurs_ignoring_case k c.

(** [col] is the first name in column order that signals a serial number. *)
Definition first_serial_column (cols : list string) (col : string) : Prop :=
  ∃ before after,
    cols = before ++ col :: after ∧ serial_name col ∧ ∀ c, c ∈ before → ¬ serial_name c.

(** The table invariant: every row holds one cell per column. *)
Definition rectangular {num} (df : DataFrame num) : Prop :=
  Forall (λ r, length r = length (columns df)) (rows df).

(** How many cells of a column equal [v]: "rows whose value equals". *)
Definition occurrences {num} `{EqDecision num} (v : value num) (s : Series num) : nat :=
  length (filter (λ x, x = v) s).

(** The size recorded for the key [v] in a list of group sizes, 0 if none. *)
Fixpoint size_of {num} `{EqDecision num} (v : value num) (sizes : list (value num * nat)) : nat :=
  match sizes with
  | [] => 0
  | (k, n) :: sizes' => if decide (k = v) then n else size_of v sizes'
  end.

(** The row offset of the [k]-th frame in a stack of frames. *)
Definition offset {num} (frames : list (DataFrame num)) (k : nat) : nat :=
  sum_list (len <$> take k frames).

(** The empty-result sentence as the spec words it: on an empty upload
    list, or when every file decodes to a frame without rows, the merger
    yields no table, and the run shows a warning and halts. *)
Definition empty_result_as_stated {num}
    (read_excel read_csv : bytes → result (DataFrame num)) : Prop :=
  ∀ files rest,
    files = []
    ∨ (∃ frames, Forall2 (decodes read_excel read_csv) files frames
                 ∧ Forall (λ df, len df = 0) frames) →
    ended (concat_uploads read_excel read_csv files) = Done None
    ∧ ended (main read_excel read_csv files rest) = Stopped
    ∧ ∃ body, st_warning body ∈ shown (main read_excel read_csv files rest).

(* ===================================================================== *)
(** ** Sample data *)
(* ===================================================================== *)

(** Concrete tables, files, decoders and font stores, with integers for
    the numeric cells.  Tables A and B are the two files of the spec's
    merge scenario. *)
Module Sample.

Definition str_num (z : Z) : string := pretty z.

Definition table_A : DataFrame Z :=
  mkDataFrame ["Name"; "Status"]
    [[VText "A1"; VText "정상"]; [VText "A2"; VText "수리 필요"]].

Definition table_B : DataFrame Z :=
  mkDataFrame ["Name"; "Status"] [[VText "B1"; VText "폐기 예정"]].

(** A branch file with a serial column and one with a department column. *)
Definition table_HQ : DataFrame Z :=
  mkDataFrame ["Name"; "Serial"; "Serial2"]
    [[VText "N1"; VText "001"; VText "x"]; [VText "N2"; VNum 17%Z; NaN]].

Definition table_Lab : DataFrame Z :=
  mkDataFrame ["Name"; "Dept"] [[VText "N3"; VText "Lab"]; [VText "N4"; NaN]].

(** A file with a header and no data row, and one with a column "count". *)
Definition table_none : DataFrame Z := mkDataFrame ["Name"; "Status"] [].

Definition table_stock : DataFrame Z :=
  mkDataFrame ["count"; "Status"] [[VNum 3%Z; VText "정상"]; [VNum 3%Z; VText "수리 필요"]].

(** A and B stacked; HQ and Lab stacked. *)
Definition table_AB : DataFrame Z :=
  mkDataFrame ["Name"; "Status"]
    [[VText "A1"; VText "정상"]; [VText "A2"; VText "수리 필요"]; [VText "B1"; VText "폐기 예정"]].

Definition table_HQ_Lab : DataFrame Z :=
  mkDataFrame ["Name"; "Serial"; "Serial2"; "Dept"]
    [[VText "N1"; VText "001"; VText "x"; NaN];
     [VText "N2"; VNum 17%Z; NaN; NaN];
     [VText "N3"; NaN; NaN; VText "Lab"];
     [VText "N4"; NaN; NaN; NaN]].

Definition file_A : UploadedFile := mkUploadedFile "a.csv" "A".
Definition file_B : UploadedFile := mkUploadedFile "b.csv" "B".
Definition file_HQ : UploadedFile := mkUploadedFile "hq.csv" "HQ".
Definition file_Lab : UploadedFile := mkUploadedFile "lab.csv" "Lab".
Definition file_none : UploadedFile := mkUploadedFile "none.csv" "none".
Definition file_bad : UploadedFile := mkUploadedFile "bad.bin" "?".

(** No buffer here is a workbook; the text decoder knows five buffers. *)
Definition read_excel (b : bytes) : result (DataFrame Z) :=
  Raise (Exn "BadZipFile" "File is not a zip file").

Definition read_csv (b : bytes) : result (DataFrame Z) :=
  if decide (b = "A") then Ok table_A
  else if decide (b = "B") then Ok table_B
  else if decide (b = "HQ") then Ok table_HQ
  else if decide (b = "Lab") then Ok table_Lab
  else if decide (b = "none") then Ok table_none
  else Raise (Exn "ParserError" "Error tokenizing data").

(** No font on disk and no network. *)
Definition offline : FontStore :=
  mkFontStore false (λ _ _, Raise (Exn "URLError" "Name or service not known")).

(** The font already on disk. *)
Definition on_disk : FontStore :=
  mkFontStore true (λ _ _, Raise (Exn "URLError" "Name or service not known")).

Definition fpdf_output (font_path title : string) (lines : list string) : bytes :=
  Py.join "|" (font_path :: title :: lines).

(** A stand-in for the script from line 129 on. *)
Definition rest (df : DataFrame Z) : script () := show (st_info "summary").

End Sample.

(* ===================================================================== *)
(** ** Facts about the string operations *)
(* ===================================================================== *)

Module PyFacts.

Lemma app_nil_l s : "" +:+ s = s.
Proof. reflexivity. Qed.

Lemma app_cons a s t : String a s +:+ t = String a (s +:+ t).
Proof. reflexivity. Qed.

Lemma app_nil_r s : s +:+ "" = s.
Proof. induction s as [|a s IH]; [done | by rewrite app_cons, IH]. Qed.

Lemma app_assoc s t u : (s +:+ t) +:+ u = s +:+ t +:+ u.
Proof. induction s as [|a s IH]; [done | by rewrite !app_cons, IH]. Qed.

Lemma startswith_app p t : Py.startswith p (p +:+ t) = true.
Proof.
  induction p as [|a p IH]; [done |].
  rewrite app_cons. simpl. by rewrite Ascii.eqb_refl.
Qed.

Lemma startswith_inv p s :
  Py.startswith p s = true → s = p +:+ Py.drop (String.length p) s.
Proof.
  revert s. induction p as [|a p IH]; intros s Hs.
  - by destruct s.
  - destruct s as [|b s]; simpl in Hs; [done |].
    destruct (Ascii.eqb_spec a b) as [->|]; [| done].
    rewrite app_cons. simpl. f_equal. by apply IH.
Qed.

Lemma startswith_iff p s : Py.startswith p s = true ↔ starts_with p s.
Proof.
  split.
  - intros Hs. eexists. by apply startswith_inv.
  - intros [t ->]. apply startswith_app.
Qed.

Lemma contains_unfold sub s :
  Py.contains sub s =
  Py.startswith sub s
  || match s with EmptyString => false | String _ s' => Py.contains sub s' end.
Proof. by destruct s. Qed.

Lemma contains_iff sub s : Py.contains sub s = true ↔ occurs_in sub s.
Proof.
  split.
  - induction s as [|a s IH]; rewrite contains_unfold; intros Hc;
      apply orb_true_iff in Hc as [Hc | Hc]; try done.
    + apply startswith_iff in Hc as [t ->]. by exists "", t.
    + apply startswith_iff in Hc as [t ->]. by exists "", t.
    + destruct (IH Hc) as (pre & post & ->). by exists (String a pre), post.
  - intros (pre & post & ->).
    induction pre as [|a pre IH]; rewrite contains_unfold.
    + rewrite app_nil_l. by rewrite startswith_app.
    + rewrite app_cons, IH. apply orb_true_r.
Qed.

Lemma lower_app s t : Py.lower (s +:+ t) = Py.lower s +:+ Py.lower t.
Proof.
  induction s as [|a s IH]; [done |].
  rewrite app_cons. simpl. by rewrite IH, app_cons.
Qed.

(** A split of the lowered string is the lowering of a split. *)
Lemma lower_split s a b :
  Py.lower s = a +:+ b →
  ∃ s1 s2, s = s1 +:+ s2 ∧ Py.lower s1 = a ∧ Py.lower s2 = b.
Proof.
  revert s. induction a as [|x a IH]; intros s Hs.
  - by exists "", s.
  - rewrite app_cons in Hs.
    destruct s as [|y s]; simpl in Hs; [done |].
    injection Hs as Hx Hs.
    destruct (IH _ Hs) as (s1 & s2 & -> & H1 & H2).
    exists (String y s1), s2. simpl. by rewrite Hx, H1.
Qed.

(** [kw in c.lower()] is the spec's case-insensitive occurrence. *)
Lemma contains_lower_iff kw s :
  Py.contains kw (Py.lower s) = true ↔ occurs_ignoring_case kw s.
Proof.
  rewrite contains_iff. split.
  - intros (pre & post & Hs).
    apply lower_split in Hs as (s1 & s2 & -> & H1 & Hs).
    apply lower_split in Hs as (s3 & s4 & -> & H3 & H4).
    by exists s1, s3, s4.
  - intros (pre & mid & post & -> & Hmid).
    exists (Py.lower pre), (Py.lower post).
    by rewrite !lower_app, Hmid.
Qed.

Lemma find_startswith p s : Py.startswith p s = true → Py.find p s = Some 0.
Proof. intros Hs. destruct s; simpl; by rewrite Hs. Qed.

(** [rule.split(kw, 1)[1]] on a rule that starts with [kw]: the rest. *)
Lemma split1_rest kw text :
  py_index (Py.split1 kw (kw +:+ text)) 1 = Ok text.
Proof.
  unfold Py.split1. rewrite find_startswith by apply startswith_app.
  simpl. f_equal.
  induction kw as [|a kw IH]; [by destruct text | by rewrite app_cons].
Qed.

End PyFacts.

(* ===================================================================== *)
(** ** Column positions *)
(* ===================================================================== *)

Section Positions.

Context {num : Type}.
Implicit Types (r : list (value num)) (cols : list string).

Lemma get_loc_lookup cols c i : get_loc cols c = Some i → cols !! i = Some c.
Proof.
  revert i. induction cols as [|c' cols IH]; intros i; simpl; [done |].
  case_decide as Hc; [intros [= <-]; by subst |].
  destruct (get_loc cols c) as [j|] eqn:Hj; simpl; [| done].
  intros [= <-]. by apply IH.
Qed.

Lemma get_loc_Some cols c : c ∈ cols → ∃ i, get_loc cols c = Some i.
Proof.
  induction cols as [|c' cols IH]; intros Hin; [by apply elem_of_nil in Hin |].
  simpl. case_decide; [by eexists |].
  apply elem_of_cons in Hin as [-> | Hin]; [done |].
  destruct (IH Hin) as [i ->]. by eexists.
Qed.

Lemma get_loc_None cols c : get_loc cols c = None → c ∉ cols.
Proof.
  intros Hnone Hin. apply get_loc_Some in Hin as [i Hi]. congruence.
Qed.

Lemma get_loc_elem_of cols c i : get_loc cols c = Some i → c ∈ cols.
Proof. intros Hi. eapply list_elem_of_lookup_2, get_loc_lookup, Hi. Qed.

Lemma get_loc_inj cols c1 c2 i :
  get_loc cols c1 = Some i → get_loc cols c2 = Some i → c1 = c2.
Proof.
  intros H1%get_loc_lookup H2%get_loc_lookup. congruence.
Qed.

Lemma at_pos_insert_ne i j (v : value num) r :
  i ≠ j → at_pos j (<[i := v]> r) = at_pos j r.
Proof. intros Hij. unfold at_pos. by rewrite list_lookup_insert_ne. Qed.

Lemma at_pos_insert_eq i (v : value num) r :
  i < length r → at_pos i (<[i := v]> r) = v.
Proof. intros Hi. unfold at_pos. by rewrite list_lookup_insert_eq. Qed.

(** Writing a column computed from itself, row by row. *)
Lemma zip_with_insert_fmap i (g : value num → value num) (rs : list (list (value num))) :
  zip_with (λ r v, <[i := v]> r) rs (g <$> (at_pos i <$> rs))
  = (λ r, <[i := g (at_pos i r)]> r) <$> rs.
Proof. induction rs as [|r rs IH]; csimpl; [done | by rewrite IH]. Qed.

End Positions.

(* ===================================================================== *)
(** ** The serial rule *)
(* ===================================================================== *)

Section SerialRule.

Context {num : Type} `{EqDecision num}.
Variable str_num : num → string.
Implicit Types (df out : DataFrame num) (cols : list string).

Abbreviation rewrite_with := (rewrite_with str_num).

Lemma is_serial_iff c : is_serial c = true ↔ serial_name c.
Proof.
  unfold is_serial, serial_name.
  by rewrite orb_true_iff, PyFacts.contains_lower_iff, PyFacts.contains_iff.
Qed.

Lemma filter_serial_nil cols :
  List.filter is_serial cols = [] ↔ ∀ c, c ∈ cols → ¬ serial_name c.
Proof.
  induction cols as [|c cols IH]; simpl.
  - split; [intros _ c Hc; by apply elem_of_nil in Hc | done].
  - destruct (is_serial c) eqn:Hc.
    + split; [done |]. intros Hall. exfalso.
      apply (Hall c); [apply elem_of_cons; by left | by apply is_serial_iff].
    + rewrite IH. split.
      * intros Hall c' [-> | Hin]%elem_of_cons; [| by apply Hall].
        rewrite <- is_serial_iff. by rewrite Hc.
      * intros Hall c' Hin. apply Hall, elem_of_cons. by right.
Qed.

(** [serial_cols[0]] is the first name in column order that matches. *)
Lemma filter_serial_head cols col :
  head (List.filter is_serial cols) = Some col ↔ first_serial_column cols col.
Proof.
  split.
  - induction cols as [|c cols IH]; simpl; [done |].
    destruct (is_serial c) eqn:Hc.
    + intros [= <-]. exists [], cols. split_and!; [done | by apply is_serial_iff |].
      intros c' Hc'. by apply elem_of_nil in Hc'.
    + intros (before & after & -> & Hcol & Hbefore)%IH.
      exists (c :: before), after. split_and!; [done | done |].
      intros c' [-> | Hin]%elem_of_cons; [| by apply Hbefore].
      rewrite <- is_serial_iff. by rewrite Hc.
  - intros (before & after & -> & Hcol & Hbefore).
    induction before as [|c before IH]; simpl.
    + apply is_serial_iff in Hcol. by rewrite Hcol.
    + destruct (is_serial c) eqn:Hc.
      * exfalso. apply (Hbefore c); [apply elem_of_cons; by left | by apply is_serial_iff].
      * apply IH. intros c' Hin. apply Hbefore, elem_of_cons. by right.
Qed.

Lemma first_serial_column_unique cols c1 c2 :
  first_serial_column cols c1 → first_serial_column cols c2 → c1 = c2.
Proof. rewrite <- !filter_serial_head. congruence. Qed.

Lemma filter_serial_elem_of cols col rest :
  List.filter is_serial cols = col :: rest → col ∈ cols.
Proof.
  intros Hf. apply list_elem_of_In.
  eapply (proj1 (filter_In is_serial col cols)).
  rewrite Hf. by left.
Qed.

Lemma setitem_own_column df col i (g : string → string) s :
  get_loc (columns df) col = Some i →
  getitem df col = Ok s →
  setitem df col (of_strs (g <$> astype_str str_num s)) = rewrite_with g i df.
Proof.
  unfold getitem, setitem, rewrite_with. intros -> [= <-]. f_equal.
  rewrite <- (zip_with_insert_fmap i (λ v, VText (g (py_str str_num v)))).
  f_equal. unfold of_strs, astype_str. by rewrite <- !list_fmap_compose.
Qed.

Lemma apply_no_serial df rule :
  List.filter is_serial (columns df) = [] → apply_serial_rule str_num df rule = Ok df.
Proof. unfold apply_serial_rule. by intros ->. Qed.

Lemma apply_prefix df col rest i text :
  List.filter is_serial (columns df) = col :: rest →
  get_loc (columns df) col = Some i →
  apply_serial_rule str_num df ("prefix=" +:+ text)
  = Ok (rewrite_with (λ t, text +:+ t) i df).
Proof.
  intros Hf Hi. unfold apply_serial_rule. rewrite Hf.
  rewrite PyFacts.startswith_app, PyFacts.split1_rest. simpl.
  erewrite <- setitem_own_column; [| done | unfold getitem; by rewrite Hi].
  unfold getitem. by rewrite Hi.
Qed.

Lemma apply_suffix df col rest i text :
  List.filter is_serial (columns df) = col :: rest →
  get_loc (columns df) col = Some i →
  apply_serial_rule str_num df ("suffix=" +:+ text)
  = Ok (rewrite_with (λ t, t +:+ text) i df).
Proof.
  intros Hf Hi. unfold apply_serial_rule. rewrite Hf.
  replace (Py.startswith "prefix=" ("suffix=" +:+ text)) with false by done.
  rewrite PyFacts.startswith_app, PyFacts.split1_rest. simpl.
  erewrite <- setitem_own_column; [| done | unfold getitem; by rewrite Hi].
  unfold getitem. by rewrite Hi.
Qed.

Lemma apply_other df rule :
  Py.startswith "prefix=" rule = false →
  Py.startswith "suffix=" rule = false →
  apply_serial_rule str_num df rule = Ok df.
Proof.
  intros Hp Hs. unfold apply_serial_rule. rewrite Hp, Hs.
  by destruct (List.filter is_serial (columns df)).
Qed.

(** Every run of the rule either returns the table as it is or
    rewrites the selected column through some text function. *)
Lemma apply_serial_rule_cases df rule :
  apply_serial_rule str_num df rule = Ok df
  ∨ ∃ col i g,
      first_serial_column (columns df) col ∧ get_loc (columns df) col = Some i
      ∧ apply_serial_rule str_num df rule = Ok (rewrite_with g i df).
Proof.
  destruct (List.filter is_serial (columns df)) as [|col rest] eqn:Hf;
    [left; by apply apply_no_serial |].
  assert (first_serial_column (columns df) col) as Hfirst
    by (apply filter_serial_head; by rewrite Hf).
  destruct (get_loc_Some (columns df) col) as [i Hi];
    [by eapply filter_serial_elem_of |].
  destruct (Py.startswith "prefix=" rule) eqn:Hp.
  { apply PyFacts.startswith_iff in Hp as [text ->].
    right. exists col, i, (λ t, text +:+ t). split_and!; [done | done |].
    by eapply apply_prefix. }
  destruct (Py.startswith "suffix=" rule) eqn:Hs.
  { apply PyFacts.startswith_iff in Hs as [text ->].
    right. exists col, i, (λ t, t +:+ text). split_and!; [done | done |].
    by eapply apply_suffix. }
  left. by apply apply_other.
Qed.

Lemma cell_rewrite_with_other g i df col c k :
  get_loc (columns df) col = Some i → c ≠ col →
  cell (rewrite_with g i df) k c = cell df k c.
Proof.
  intros Hi Hc. unfold cell, rewrite_with. simpl.
  rewrite list_lookup_fmap. destruct (rows df !! k) as [r|]; simpl; [| done].
  unfold row_get. destruct (get_loc (columns df) c) as [j|] eqn:Hj; simpl; [| done].
  rewrite at_pos_insert_ne; [done |].
  intros <-. apply Hc. by eapply get_loc_inj.
Qed.

Lemma cell_rewrite_with_own g i df col k v :
  rectangular df → get_loc (columns df) col = Some i →
  cell df k col = Some v →
  cell (rewrite_with g i df) k col = Some (VText (g (py_str str_num v))).
Proof.
  intros Hrect Hi. unfold cell, rewrite_with. simpl.
  rewrite list_lookup_fmap. destruct (rows df !! k) as [r|] eqn:Hr; simpl; [| done].
  unfold row_get. rewrite Hi. simpl. intros [= <-].
  rewrite at_pos_insert_eq; [done |].
  unfold rectangular in Hrect. rewrite Forall_lookup in Hrect.
  rewrite (Hrect _ _ Hr). eapply lookup_lt_Some, get_loc_lookup, Hi.
Qed.

Lemma len_rewrite_with g i df : len (rewrite_with g i df) = len df.
Proof. unfold len, rewrite_with. simpl. by rewrite length_fmap. Qed.

(** X4. The rule keeps the table invariant: full rows stay full. *)
Lemma apply_serial_rule_rectangular df rule out :
  rectangular df → apply_serial_rule str_num df rule = Ok out → rectangular out.
Proof.
  intros Hrect Hout.
  destruct (apply_serial_rule_cases df rule) as [Hid | (col & i & g & _ & _ & Hrw)].
  - congruence.
  - rewrite Hrw in Hout. injection Hout as <-.
    unfold rectangular, rewrite_with in *. simpl.
    apply Forall_fmap. eapply Forall_impl; [exact Hrect |].
    intros r Hr. simpl. by rewrite length_insert.
Qed.

(** C3. For a (rectangular) table whose first serial-named column is
    [col], the rule [prefix=<text>] returns a table with the same rows
    in which every row's [col] cell is [<text>] followed by the text
    of the old cell, and the rule [suffix=<text>] one in which it is
    the text of the old cell followed by [<text>]. *)
Theorem apply_serial_rule_rewrites_column df col text :
  rectangular df →
  first_serial_column (columns df) col →
  (∃ out, apply_serial_rule str_num df ("prefix=" +:+ text) = Ok out
     ∧ len out = len df
     ∧ ∀ i v, cell df i col = Some v →
              cell out i col = Some (VText (text +:+ py_str str_num v)))
  ∧ (∃ out, apply_serial_rule str_num df ("suffix=" +:+ text) = Ok out
     ∧ len out = len df
     ∧ ∀ i v, cell df i col = Some v →
              cell out i col = Some (VText (py_str str_num v +:+ text))).
Proof.
  intros Hrect Hfirst.
  pose proof Hfirst as Hhead. apply filter_serial_head in Hhead.
  destruct (List.filter is_serial (columns df)) as [|col' rest] eqn:Hf; [done |].
  injection Hhead as ->.
  destruct (get_loc_Some (columns df) col) as [j Hj];
    [by eapply filter_serial_elem_of |].
  split.
  - eexists. split; [by eapply apply_prefix |].
    split; [apply len_rewrite_with |].
    intros i v Hv. by apply (cell_rewrite_with_own (λ t, text +:+ t)).
  - eexists. split; [by eapply apply_suffix |].
    split; [apply len_rewrite_with |].
    intros i v Hv. by apply (cell_rewrite_with_own (λ t, t +:+ text)).
Qed.

(** C9. A table none of whose column names signals a serial number
    comes back unchanged, without error, whatever the rule; a rule
    that is empty or starts with neither [prefix=] nor [suffix=] gives
    every table back unchanged; and when several names match, the
    column the rule works on is the first match in column order: all
    other columns, later matches included, keep their cells. *)
Theorem apply_serial_rule_identity df rule :
  ((∀ c, c ∈ columns df → ¬ serial_name c) →
     apply_serial_rule str_num df rule = Ok df)
  ∧ ((rule = "" ∨ (¬ starts_with "prefix=" rule ∧ ¬ starts_with "suffix=" rule)) →
     apply_serial_rule str_num df rule = Ok df)
  ∧ (∀ col, first_serial_column (columns df) col →
       head (List.filter is_serial (columns df)) = Some col
       ∧ ∃ out, apply_serial_rule str_num df rule = Ok out
           ∧ ∀ c, c ≠ col → ∀ i, cell out i c = cell df i c).
Proof.
  split_and!.
  - intros Hnone. by apply apply_no_serial, filter_serial_nil.
  - intros Hrule. apply apply_other.
    + destruct Hrule as [-> | [Hp _]]; [done |].
      destruct (Py.startswith "prefix=" rule) eqn:E; [| done].
      by apply PyFacts.startswith_iff in E.
    + destruct Hrule as [-> | [_ Hs]]; [done |].
      destruct (Py.startswith "suffix=" rule) eqn:E; [| done].
      by apply PyFacts.startswith_iff in E.
  - intros col Hfirst. split; [by apply filter_serial_head |].
    destruct (apply_serial_rule_cases df rule)
      as [Hid | (col' & i & g & Hfirst' & Hi & Hout)].
    + by exists df.
    + rewrite (first_serial_column_unique _ _ _ Hfirst' Hfirst) in Hi.
      eexists. split; [done |].
      intros c Hc k. by eapply cell_rewrite_with_other.
Qed.

(** C10. Whatever the table and the rule, [apply_serial_rule] returns
    a table with the same number of rows and the same columns, and
    every cell of every column other than the first serial-named one
    is, at the same row, the cell of the input. *)
Theorem apply_serial_rule_frame df rule :
  ∃ out, apply_serial_rule str_num df rule = Ok out
    ∧ len out = len df
    ∧ columns out = columns df
    ∧ ∀ c, ¬ first_serial_column (columns df) c →
           ∀ i, cell out i c = cell df i c.
Proof.
  destruct (apply_serial_rule_cases df rule)
    as [Hid | (col & i & g & Hfirst & Hi & Hout)].
  - by exists df.
  - eexists. split; [done |]. split; [apply len_rewrite_with |]. split; [done |].
    intros c Hc k. eapply cell_rewrite_with_other; [done |].
    by intros ->.
Qed.

End SerialRule.

(* ===================================================================== *)
(** ** pd.concat *)
(* ===================================================================== *)

Section Concat.

Context {num : Type}.
Implicit Types (df merged : DataFrame num) (frames : list (DataFrame num)).
Implicit Types (cols acc : list string).

Lemma union_columns_elem_of acc cols c :
  c ∈ union_columns acc cols ↔ c ∈ acc ∨ c ∈ cols.
Proof.
  unfold union_columns. revert acc.
  induction cols as [|c' cols IH]; intros acc; simpl.
  - rewrite elem_of_nil. tauto.
  - rewrite IH, elem_of_cons. case_decide as Hc'.
    + split; [tauto |]. intros [? | [-> | ?]]; tauto.
    + rewrite elem_of_app, list_elem_of_singleton. tauto.
Qed.

Lemma union_columns_NoDup acc cols : NoDup acc → NoDup (union_columns acc cols).
Proof.
  unfold union_columns. revert acc.
  induction cols as [|c' cols IH]; intros acc Hacc; simpl; [done |].
  apply IH. case_decide as Hc'; [done |].
  apply NoDup_app. split_and!; [done | | apply NoDup_singleton].
  intros c Hc ->%list_elem_of_singleton. done.
Qed.

(** The joined column axis holds exactly the labels of the frames. *)
Lemma joined_columns_elem_of acc frames c :
  c ∈ foldl union_columns acc (columns <$> frames)
  ↔ c ∈ acc ∨ ∃ df, df ∈ frames ∧ c ∈ columns df.
Proof.
  revert acc. induction frames as [|d frames IH]; intros acc; csimpl.
  - split; [tauto |]. intros [? | (df & Hdf & _)]; [done |].
    by apply elem_of_nil in Hdf.
  - rewrite IH, union_columns_elem_of. split.
    + intros [[? | ?] | (df & Hdf & Hc)]; [tauto | |].
      * right. exists d. split; [apply elem_of_cons; by left | done].
      * right. exists df. split; [apply elem_of_cons; by right | done].
    + intros [? | (df & [-> | Hdf]%elem_of_cons & Hc)]; [tauto | tauto |].
      right. by exists df.
Qed.

Lemma joined_columns_NoDup acc frames :
  NoDup acc → NoDup (foldl union_columns acc (columns <$> frames)).
Proof.
  revert acc. induction frames as [|d frames IH]; intros acc Hacc; csimpl; [done |].
  by apply IH, union_columns_NoDup.
Qed.

(** A relabelled row, read at a label of the new axis. *)
Lemma row_get_reindex cols new_cols (r : list (value num)) c :
  c ∈ new_cols →
  row_get new_cols (reindex cols new_cols r) c = Some (default NaN (row_get cols r c)).
Proof.
  intros [j Hj]%get_loc_Some. unfold row_get at 1. rewrite Hj. simpl.
  unfold at_pos, reindex. rewrite list_lookup_fmap.
  by rewrite (get_loc_lookup _ _ _ Hj).
Qed.

Lemma stack_length cols frames :
  length (frames ≫= λ df, reindex (columns df) cols <$> rows df)
  = sum_list (len <$> frames).
Proof.
  induction frames as [|d frames IH]; csimpl; [done |].
  by rewrite length_app, length_fmap, IH.
Qed.

(** Row [i] of the [k]-th frame sits at [offset frames k + i] in the stack. *)
Lemma stack_lookup cols frames k df i :
  frames !! k = Some df → i < len df →
  (frames ≫= λ df, reindex (columns df) cols <$> rows df) !! (offset frames k + i)
  = reindex (columns df) cols <$> rows df !! i.
Proof.
  revert k. induction frames as [|d frames IH]; intros k Hk Hi; [done |].
  csimpl. destruct k as [|k]; simpl in Hk.
  - injection Hk as ->. unfold offset. simpl.
    rewrite lookup_app_l by (by rewrite length_fmap).
    by rewrite list_lookup_fmap.
  - unfold offset. csimpl. fold (offset frames k).
    rewrite lookup_app_r by (rewrite length_fmap; unfold len; lia).
    rewrite length_fmap.
    replace (len d + offset frames k + i - length (rows d)) with (offset frames k + i)
      by (unfold len; lia).
    by apply IH.
Qed.

Lemma pd_concat_Ok frames :
  frames ≠ [] →
  pd_concat frames
  = Ok (mkDataFrame (foldl union_columns [] (columns <$> frames))
          (frames ≫= λ df, reindex (columns df)
                              (foldl union_columns [] (columns <$> frames)) <$> rows df)).
Proof. by destruct frames. Qed.

(** Inversion of a successful [pd.concat]. *)
Ltac concat_inv frames H :=
  let E := fresh "Hne" in
  assert (frames ≠ []) as E by (intros ->; discriminate H);
  rewrite (pd_concat_Ok _ E) in H; injection H as <-.

Lemma pd_concat_len frames merged :
  pd_concat frames = Ok merged → len merged = sum_list (len <$> frames).
Proof.
  intros Hm. concat_inv frames Hm. apply stack_length.
Qed.

Lemma pd_concat_columns frames merged c :
  pd_concat frames = Ok merged →
  c ∈ columns merged ↔ ∃ df, df ∈ frames ∧ c ∈ columns df.
Proof.
  intros Hm. concat_inv frames Hm. simpl.
  rewrite joined_columns_elem_of, elem_of_nil. tauto.
Qed.

Lemma pd_concat_NoDup frames merged :
  pd_concat frames = Ok merged → NoDup (columns merged).
Proof.
  intros Hm. concat_inv frames Hm. apply joined_columns_NoDup, NoDup_nil_2.
Qed.

(** The stacked rows hold one cell per joined column. *)
Lemma pd_concat_rectangular frames merged :
  pd_concat frames = Ok merged → rectangular merged.
Proof.
  intros Hm. concat_inv frames Hm. unfold rectangular. simpl.
  apply Forall_forall. intros r Hr.
  apply list_elem_of_bind in Hr as (df & Hr & _).
  apply list_elem_of_fmap in Hr as (r0 & -> & _).
  unfold reindex. by rewrite length_fmap.
Qed.

(** A cell of the merged table, at a row that came from [df]. *)
Lemma pd_concat_cell frames merged k df i c :
  pd_concat frames = Ok merged →
  frames !! k = Some df → i < len df → c ∈ columns merged →
  cell merged (offset frames k + i) c
  = (λ r, default NaN (row_get (columns df) r c)) <$> rows df !! i.
Proof.
  intros Hm Hk Hi Hc. concat_inv frames Hm. unfold cell. simpl in *.
  rewrite (stack_lookup _ _ k df i Hk Hi).
  destruct (rows df !! i) as [r|]; simpl; [| done].
  by rewrite row_get_reindex.
Qed.

End Concat.

(* ===================================================================== *)
(** ** The batch merger *)
(* ===================================================================== *)

Section Merger.

Context {num : Type}.
Variable read_excel read_csv : bytes → result (DataFrame num).
Implicit Types (df merged : DataFrame num) (frames : list (DataFrame num)).
Implicit Types (f : UploadedFile) (files : list UploadedFile).

Abbreviation decodes := (decodes read_excel read_csv).

Lemma load_fails_iff b exc :
  load_excel_or_csv read_excel read_csv b = Raise exc
  ↔ (∃ e, read_excel b = Raise e) ∧ read_csv b = Raise exc.
Proof.
  unfold load_excel_or_csv. destruct (read_excel b) as [df | e].
  - split; [done |]. by intros [[e ?] _].
  - split; [eauto | by intros [_ ?]].
Qed.

Lemma read_frames_all files frames acc :
  Forall2 decodes files frames →
  read_frames read_excel read_csv files acc = Script [] (Done (Some (acc ++ frames))).
Proof.
  intros Hall. revert acc.
  induction Hall as [|f df files frames Hf _ IH]; intros acc; simpl.
  - by rewrite app_nil_r.
  - unfold decodes in Hf. rewrite Hf, IH. by rewrite <- app_assoc.
Qed.

Lemma read_frames_first_failure before frames f exc after acc :
  Forall2 decodes before frames →
  load_excel_or_csv read_excel read_csv (content f) = Raise exc →
  read_frames read_excel read_csv (before ++ f :: after) acc
  = Script [st_error (name f +:+ " 읽기 오류: " +:+ exn_text exc)] (Done None).
Proof.
  intros Hall Hf. revert acc.
  induction Hall as [|f' df files frames' Hf' _ IH]; intros acc; simpl.
  - by rewrite Hf.
  - unfold decodes in Hf'. by rewrite Hf', IH.
Qed.

(** Every batch either decodes whole or has a first file that does not. *)
Lemma batch_cases files :
  (∃ frames, Forall2 decodes files frames)
  ∨ (∃ before frames f exc after,
       files = before ++ f :: after ∧ Forall2 decodes before frames
       ∧ load_excel_or_csv read_excel read_csv (content f) = Raise exc).
Proof.
  induction files as [|f files IH].
  - left. exists []. constructor.
  - destruct (load_excel_or_csv read_excel read_csv (content f)) as [df | exc] eqn:Hf.
    + destruct IH as [[frames Hall] | (before & frames & f' & exc & after & -> & Hall & Hf')].
      * left. exists (df :: frames). by constructor.
      * right. exists (f :: before), (df :: frames), f', exc, after.
        split_and!; [done | by constructor | done].
    + right. exists [], [], f, exc, files. split_and!; [done | constructor | done].
Qed.

Lemma concat_uploads_all files frames :
  files ≠ [] → Forall2 decodes files frames →
  ∃ merged, pd_concat frames = Ok merged
    ∧ concat_uploads read_excel read_csv files = Script [] (Done (Some merged)).
Proof.
  intros Hne Hall.
  assert (frames ≠ []) as Hfr by (intros ->; by apply Forall2_nil_inv_r in Hall).
  eexists. split; [by apply pd_concat_Ok |].
  unfold concat_uploads. rewrite (read_frames_all _ _ [] Hall).
  destruct frames as [|d frames]; [done |]. reflexivity.
Qed.

Lemma concat_uploads_nil :
  concat_uploads read_excel read_csv [] = Script [] (Done None).
Proof. reflexivity. Qed.

Lemma concat_uploads_first_failure before frames f exc after :
  Forall2 decodes before frames →
  load_excel_or_csv read_excel read_csv (content f) = Raise exc →
  concat_uploads read_excel read_csv (before ++ f :: after)
  = Script [st_error (name f +:+ " 읽기 오류: " +:+ exn_text exc)] (Done None).
Proof.
  intros Hall Hf. unfold concat_uploads.
  by rewrite (read_frames_first_failure _ _ _ _ _ [] Hall Hf).
Qed.

(** A merged table comes from a batch that decoded whole. *)
Lemma concat_uploads_Some files log merged :
  concat_uploads read_excel read_csv files = Script log (Done (Some merged)) →
  ∃ frames, Forall2 decodes files frames ∧ pd_concat frames = Ok merged ∧ log = [].
Proof.
  intros Hm.
  destruct (batch_cases files)
    as [[frames Hall] | (before & frames & f & exc & after & -> & Hall & Hf)].
  - destruct files as [|f files]; [done |].
    destruct (concat_uploads_all (f :: files) frames) as (m & Hc & Hrun); [done | done |].
    rewrite Hrun in Hm. injection Hm as <- <-. by exists frames.
  - by rewrite (concat_uploads_first_failure _ _ _ _ _ Hall Hf) in Hm.
Qed.

(** What the merger returns satisfies the table invariant. *)
Lemma concat_uploads_rectangular files log merged :
  concat_uploads read_excel read_csv files = Script log (Done (Some merged)) →
  rectangular merged.
Proof.
  intros (frames & _ & Hc & _)%concat_uploads_Some. by eapply pd_concat_rectangular.
Qed.

(** C1. When every file of a non-empty batch decodes, [concat_uploads]
    returns a table; it has as many rows as the decoded frames have
    together; and row [i] of the [k]-th frame is the merged table's row
    [offset frames k + i] (the rows of the earlier files come first, in
    their order), with the same cell under each of the frame's columns. *)
Theorem concat_uploads_rows_in_order files frames :
  files ≠ [] →
  Forall2 decodes files frames →
  ∃ merged,
    concat_uploads read_excel read_csv files = Script [] (Done (Some merged))
    ∧ len merged = sum_list (len <$> frames)
    ∧ ∀ k df i c,
        frames !! k = Some df → i < len df → c ∈ columns df →
        cell merged (offset frames k + i) c = cell df i c.
Proof.
  intros Hne Hall.
  destruct (concat_uploads_all files frames Hne Hall) as (merged & Hc & Hrun).
  exists merged. split; [done |]. split; [by apply pd_concat_len |].
  intros k df i c Hk Hi Hcol.
  rewrite (pd_concat_cell frames merged k df i c Hc Hk Hi).
  - unfold cell. destruct (rows df !! i) as [r|]; simpl; [| done].
    apply get_loc_Some in Hcol as [j Hj]. unfold row_get. by rewrite Hj.
  - apply (pd_concat_columns _ _ _ Hc). exists df.
    split; [by eapply list_elem_of_lookup_2 | done].
Qed.

(** C2. If some file of the batch fails in both decoders, then
    [concat_uploads] returns None and shows exactly one error, which
    names a file that failed to decode (the first one in the batch) with
    the text of its exception: the frames decoded before it are dropped. *)
Theorem concat_uploads_aborts files f :
  f ∈ files →
  (∃ e, read_excel (content f) = Raise e) →
  (∃ e, read_csv (content f) = Raise e) →
  ∃ before bad after exc,
    files = before ++ bad :: after
    ∧ (∃ frames, Forall2 decodes before frames)
    ∧ (∃ e, read_excel (content bad) = Raise e)
    ∧ read_csv (content bad) = Raise exc
    ∧ concat_uploads read_excel read_csv files
      = Script [st_error (name bad +:+ " 읽기 오류: " +:+ exn_text exc)] (Done None).
Proof.
  intros Hin Hx [e2 Hc].
  destruct (batch_cases files)
    as [[frames Hall] | (before & frames & bad & exc & after & -> & Hall & Hbad)].
  - exfalso. apply list_elem_of_lookup in Hin as [k Hk].
    destruct (Forall2_lookup_l _ _ _ _ _ Hall Hk) as (df & _ & Hdf).
    unfold decodes in Hdf.
    assert (load_excel_or_csv read_excel read_csv (content f) = Raise e2) as Hf
      by (by apply load_fails_iff).
    congruence.
  - exists before, bad, after, exc.
    pose proof Hbad as [Hbx Hbc]%load_fails_iff.
    split_and!; [done | by exists frames | done | done |].
    by eapply concat_uploads_first_failure.
Qed.

(** C8. A table [concat_uploads] returns comes from a batch that decoded
    whole; its column labels are pairwise distinct and are exactly the
    labels that occur in some decoded frame; and at a row that came from
    a frame lacking one of those labels the cell under it is missing. *)
Theorem concat_uploads_aligns_columns files log merged :
  concat_uploads read_excel read_csv files = Script log (Done (Some merged)) →
  ∃ frames,
    Forall2 decodes files frames
    ∧ NoDup (columns merged)
    ∧ (∀ c, c ∈ columns merged ↔ ∃ df, df ∈ frames ∧ c ∈ columns df)
    ∧ ∀ k df i c,
        frames !! k = Some df → i < len df →
        c ∈ columns merged → c ∉ columns df →
        cell merged (offset frames k + i) c = Some NaN.
Proof.
  intros (frames & Hall & Hc & ->)%concat_uploads_Some.
  exists frames. split; [done |]. split; [by eapply pd_concat_NoDup |].
  split; [intros c; by apply pd_concat_columns |].
  intros k df i c Hk Hi Hcol Hnot.
  rewrite (pd_concat_cell frames merged k df i c Hc Hk Hi Hcol).
  destruct (rows df !! i) as [r|] eqn:Hr; simpl.
  - unfold row_get. destruct (get_loc (columns df) c) as [j|] eqn:Hj; [| done].
    exfalso. by eapply Hnot, get_loc_elem_of.
  - apply lookup_ge_None in Hr. unfold len in Hi. lia.
Qed.

(** Lines 125-127: after a merge that returned None or an empty table
    the script shows the warning and halts; [rest] is not run. *)
Lemma main_gate files (rest : DataFrame num → script ()) log r :
  files ≠ [] →
  concat_uploads read_excel read_csv files = Script log (Done r) →
  r = None ∨ (∃ df, r = Some df ∧ empty df = true) →
  main read_excel read_csv files rest
  = Script (log ++ [st_warning "데이터가 비어 있거나 읽기에 실패했습니다."]) Stopped.
Proof.
  intros Hne Hrun Hr. unfold main.
  destruct files as [|f files]; [done |].
  rewrite Hrun. unfold mbind, script_bind. simpl.
  destruct Hr as [-> | (df & -> & Hempty)]; simpl; [done |].
  by rewrite Hempty.
Qed.

(** C7, as the code has it.  On an empty upload list [concat_uploads]
    returns None, and the script does not call it: it shows the upload
    prompt as an info message and ends.  On a non-empty batch whose
    files all decode to frames without rows, [concat_uploads] returns a
    table, with no rows, and the script shows the warning and halts.
    Whenever at least one file was uploaded and the merge returned None
    or an empty table, the script shows the warning after what the merge
    showed and halts there: the rest of the script is not run. *)
Theorem empty_batch_outcome files (rest : DataFrame num → script ()) :
  (files = [] →
     concat_uploads read_excel read_csv files = Script [] (Done None)
     ∧ main read_excel read_csv files rest
       = Script [st_info "좌측의 업로드 영역을 통해 여러 엑셀/CSV 파일을 올려 주세요."] (Done ()))
  ∧ (∀ frames,
       files ≠ [] → Forall2 decodes files frames → Forall (λ df, len df = 0) frames →
       ∃ merged,
         concat_uploads read_excel read_csv files = Script [] (Done (Some merged))
         ∧ len merged = 0
         ∧ main read_excel read_csv files rest
           = Script [st_warning "데이터가 비어 있거나 읽기에 실패했습니다."] Stopped)
  ∧ (∀ log r,
       files ≠ [] →
       concat_uploads read_excel read_csv files = Script log (Done r) →
       r = None ∨ (∃ df, r = Some df ∧ empty df = true) →
       main read_excel read_csv files rest
       = Script (log ++ [st_warning "데이터가 비어 있거나 읽기에 실패했습니다."]) Stopped).
Proof.
  split_and!.
  - by intros ->.
  - intros frames Hne Hall Hzero.
    destruct (concat_uploads_all files frames Hne Hall) as (merged & Hc & Hrun).
    assert (len merged = 0) as Hlen.
    { rewrite (pd_concat_len _ _ Hc).
      clear -Hzero. induction Hzero as [|df frames Hdf _ IH]; csimpl; [done |].
      by rewrite Hdf, IH. }
    exists merged. split; [done |]. split; [done |].
    apply (main_gate files rest [] (Some merged) Hne Hrun).
    right. exists merged. split; [done |]. unfold empty. by rewrite Hlen.
  - intros log r. apply main_gate.
Qed.

End Merger.

(* ===================================================================== *)
(** ** The status counters *)
(* ===================================================================== *)

Section Summary.

Context {num : Type} `{EqDecision num}.
Implicit Types (df : DataFrame num) (s : Series num) (v a b : value num).

Lemma getitem_Ok df c :
  c ∈ columns df → ∃ s, getitem df c = Ok s ∧ length s = len df.
Proof.
  intros [i Hi]%get_loc_Some. unfold getitem. rewrite Hi.
  eexists. split; [done |]. by rewrite length_fmap.
Qed.

Lemma occurrences_cons v x s :
  occurrences v (x :: s) = (if decide (x = v) then 1 else 0) + occurrences v s.
Proof. unfold occurrences. rewrite filter_cons. by case_decide. Qed.

Lemma mask_sum_eq_str s lit : mask_sum (eq_str s lit) = occurrences (VText lit) s.
Proof.
  induction s as [|x s IH]; [done |].
  rewrite occurrences_cons, <- IH. unfold mask_sum, eq_str. csimpl.
  case_bool_decide; case_decide; done.
Qed.

(** Two different literals count disjoint sets of rows. *)
Lemma two_literals_bound a b s :
  a ≠ b →
  occurrences a s + occurrences b s ≤ length s
  ∧ (occurrences a s + occurrences b s = length s ↔ Forall (λ v, v = a ∨ v = b) s).
Proof.
  intros Hab. induction s as [|x s [IHle IHeq]].
  - split; [done |]. split; [constructor | done].
  - rewrite !occurrences_cons. simpl.
    repeat case_decide; subst; try done.
    + split; [lia |]. rewrite Forall_cons, <- IHeq. split; [intros; split; [by left | lia] | lia].
    + split; [lia |]. rewrite Forall_cons, <- IHeq. split; [intros; split; [by right | lia] | lia].
    + split; [lia |]. split; [lia |]. intros [[? | ?] _]%Forall_cons; done.
Qed.

(** C4. For a table and a status column of it, the three counters are
    the row count, the number of rows whose status is "수리 필요" and the
    number whose status is "폐기 예정"; the two together never exceed the
    row count, and they reach it exactly when every row's status is one
    of the two literals. *)
Theorem status_counts_bound df status_col :
  status_col ∈ columns df →
  ∃ status need_repair to_dispose,
    getitem df status_col = Ok status
    ∧ status_counts df status_col = Ok (len df, need_repair, to_dispose)
    ∧ need_repair = occurrences (VText NEEDS_REPAIR) status
    ∧ to_dispose = occurrences (VText TO_DISPOSE) status
    ∧ need_repair + to_dispose ≤ len df
    ∧ (need_repair + to_dispose = len df
       ↔ Forall (λ v, v = VText NEEDS_REPAIR ∨ v = VText TO_DISPOSE) status).
Proof.
  intros (status & Hs & Hlen)%getitem_Ok.
  exists status, (occurrences (VText NEEDS_REPAIR) status),
    (occurrences (VText TO_DISPOSE) status).
  split; [done |]. split.
  { unfold status_counts. rewrite Hs. simpl. by rewrite !mask_sum_eq_str. }
  split; [done |]. split; [done |].
  rewrite <- Hlen. by apply two_literals_bound.
Qed.

End Summary.

(* ===================================================================== *)
(** ** The grouped counts *)
(* ===================================================================== *)

Section Groups.

Context {num : Type} `{EqDecision num}.
Implicit Types (df : DataFrame num) (s : Series num) (v k : value num).
Implicit Types (acc sizes : list (value num * nat)).

Lemma count_key_keys k acc :
  (count_key k acc).*1 = if decide (k ∈ acc.*1) then acc.*1 else acc.*1 ++ [k].
Proof.
  induction acc as [|[k' n] acc IH].
  - destruct (decide (k ∈ ([] : list (value num * nat)).*1)) as [Hin | _]; [| done].
    by apply elem_of_nil in Hin.
  - simpl count_key. rewrite fmap_cons. simpl fst.
    destruct (decide (k' = k)) as [-> | Hk].
    + rewrite fmap_cons. simpl fst.
      destruct (decide (k ∈ k :: acc.*1)) as [_ | Hin]; [done |].
      exfalso. apply Hin, elem_of_cons. by left.
    + rewrite fmap_cons, IH. simpl fst.
      destruct (decide (k ∈ acc.*1)) as [Hin | Hin];
        destruct (decide (k ∈ k' :: acc.*1)) as [Hin' | Hin']; try done.
      * exfalso. apply Hin', elem_of_cons. by right.
      * apply elem_of_cons in Hin' as [-> | ?]; done.
Qed.

Lemma count_key_sum k acc : sum_list (count_key k acc).*2 = S (sum_list acc.*2).
Proof.
  induction acc as [|[k' n] acc IH]; csimpl; [done |].
  case_decide; csimpl; [lia |]. rewrite IH. lia.
Qed.

Lemma count_key_size_of v k acc :
  size_of v (count_key k acc)
  = (if decide (k = v) then 1 else 0) + size_of v acc.
Proof.
  induction acc as [|[k' n] acc IH]; simpl.
  - by case_decide.
  - destruct (decide (k' = k)) as [-> | Hk]; simpl.
    + by case_decide.
    + rewrite IH. repeat case_decide; subst; done.
Qed.

Lemma size_of_elem_of v n sizes :
  NoDup sizes.*1 → (v, n) ∈ sizes → size_of v sizes = n.
Proof.
  induction sizes as [|[k m] sizes IH]; csimpl; intros Hnd Hin.
  - by apply elem_of_nil in Hin.
  - apply NoDup_cons in Hnd as [Hk Hnd].
    apply elem_of_cons in Hin as [[= -> ->] | Hin].
    + by rewrite decide_True.
    + rewrite decide_False; [by apply IH |].
      intros ->. apply Hk, list_elem_of_fmap. by exists (v, n).
Qed.

(** The groups after the cells [s], starting from the groups [acc]. *)
Lemma tally_spec s acc :
  let sizes := foldl (λ acc k, count_key k acc) acc s in
  sum_list sizes.*2 = sum_list acc.*2 + length s
  ∧ (NoDup acc.*1 → NoDup sizes.*1)
  ∧ (∀ v, v ∈ sizes.*1 ↔ v ∈ acc.*1 ∨ v ∈ s)
  ∧ (∀ v, size_of v sizes = size_of v acc + occurrences v s).
Proof.
  revert acc. induction s as [|k s IH]; intros acc; simpl.
  - split_and!; [lia | done | | done].
    intros v. rewrite elem_of_nil. tauto.
  - destruct (IH (count_key k acc)) as (Hsum & Hnd & Hkeys & Hsize).
    split_and!.
    + rewrite Hsum, count_key_sum. lia.
    + intros Hacc. apply Hnd. rewrite count_key_keys. case_decide; [done |].
      apply NoDup_app. split_and!; [done | | apply NoDup_singleton].
      by intros v Hv ->%list_elem_of_singleton.
    + intros v. rewrite Hkeys, count_key_keys, elem_of_cons.
      case_decide as Hk.
      * split; [tauto |]. intros [? | [-> | ?]]; tauto.
      * rewrite elem_of_app, list_elem_of_singleton. tauto.
    + intros v. rewrite Hsize, count_key_size_of, occurrences_cons. lia.
Qed.

(** For a table and a grouping column of it, the group sizes that
    [groupby(col, dropna=False).size()] computes - the ones [dept_count]
    and [type_count] hand to [reset_index] - add up to the row count,
    and their keys are pairwise distinct and are exactly the values that
    occur in the column, the missing value included; each size is the
    number of rows holding its key.  ([reset_index] frames them unless
    the grouping column is itself called "count": [grouped_count_frame]
    and [grouped_count_label_clash] below.) *)
Theorem grouped_count_partition df col :
  col ∈ columns df →
  ∃ keys sizes,
    getitem df col = Ok keys
    ∧ groupby_size df col = Ok sizes
    ∧ dept_count df col = reset_index col "count" sizes
    ∧ type_count df col = reset_index col "count" sizes
    ∧ sum_list sizes.*2 = len df
    ∧ NoDup sizes.*1
    ∧ (∀ v, v ∈ sizes.*1 ↔ v ∈ keys)
    ∧ (∀ v n, (v, n) ∈ sizes → n = occurrences v keys).
Proof.
  intros (keys & Hkeys & Hlen)%getitem_Ok.
  destruct (tally_spec keys []) as (Hsum & Hnd & Hin & Hsize).
  exists keys, (foldl (λ acc k, count_key k acc) [] keys).
  split; [done |].
  assert (groupby_size df col = Ok (foldl (λ acc k, count_key k acc) [] keys)) as Hg
    by (unfold groupby_size; by rewrite Hkeys).
  split; [done |].
  split; [unfold dept_count; by rewrite Hg |].
  split; [unfold type_count; by rewrite Hg |].
  split; [rewrite Hsum; simpl; lia |].
  split; [apply Hnd, NoDup_nil_2 |].
  split.
  - intros v. rewrite Hin. csimpl. rewrite elem_of_nil. tauto.
  - intros v n Hvn. rewrite <- (size_of_elem_of v n _ (Hnd (NoDup_nil_2)) Hvn).
    by rewrite Hsize.
Qed.

(** With a grouping column not itself called "count", the sizes become
    the frame the charts are drawn from. *)
Lemma grouped_count_frame df col sizes :
  groupby_size df col = Ok sizes → col ≠ "count" →
  dept_count df col = Ok (mkAggregation col "count" sizes)
  ∧ type_count df col = Ok (mkAggregation col "count" sizes).
Proof.
  intros Hg Hcol. unfold dept_count, type_count. rewrite Hg. simpl.
  unfold reset_index. by rewrite decide_False.
Qed.

(** X20. For a grouping column of the table that is not itself
    called "count", [dept_count] and [type_count] return a frame, with
    the grouping label and "count" as its labels, whose groups are a
    partition of the rows: the counts add up to the row count, the keys
    are pairwise distinct and are exactly the values that occur in the
    column, the missing value included, and each count is the number of
    rows holding its key. *)
Theorem grouped_count_frame_partition df col :
  col ∈ columns df →
  col ≠ "count" →
  ∃ keys agg,
    getitem df col = Ok keys
    ∧ dept_count df col = Ok agg
    ∧ type_count df col = Ok agg
    ∧ key_label agg = col
    ∧ count_label agg = "count"
    ∧ sum_list (groups agg).*2 = len df
    ∧ NoDup (groups agg).*1
    ∧ (∀ v, v ∈ (groups agg).*1 ↔ v ∈ keys)
    ∧ (∀ v n, (v, n) ∈ groups agg → n = occurrences v keys).
Proof.
  intros (keys & Hkeys & Hlen)%getitem_Ok Hcol.
  destruct (tally_spec keys []) as (Hsum & Hnd & Hin & Hsize).
  assert (groupby_size df col = Ok (foldl (λ acc k, count_key k acc) [] keys)) as Hg
    by (unfold groupby_size; by rewrite Hkeys).
  destruct (grouped_count_frame df col _ Hg Hcol) as [Hdept Htype].
  exists keys, (mkAggregation col "count" (foldl (λ acc k, count_key k acc) [] keys)).
  split_and!; try done.
  - simpl. rewrite Hsum. simpl. lia.
  - apply Hnd, NoDup_nil_2.
  - intros v. simpl. rewrite Hin. csimpl. rewrite elem_of_nil. tauto.
  - intros v n Hvn. simpl in Hvn.
    rewrite <- (size_of_elem_of v n _ (Hnd (NoDup_nil_2)) Hvn). by rewrite Hsize.
Qed.

(** A grouping column called "count" collides with [name="count"]:
    [reset_index] raises and no frame is built. *)
Lemma grouped_count_label_clash df :
  "count" ∈ columns df →
  dept_count df "count" = Raise (ValueError "cannot insert count, already exists")
  ∧ type_count df "count" = Raise (ValueError "cannot insert count, already exists").
Proof.
  intros (keys & Hkeys & _)%getitem_Ok.
  unfold dept_count, type_count, groupby_size. by rewrite Hkeys.
Qed.

End Groups.

(* ===================================================================== *)
(** ** The PDF export *)
(* ===================================================================== *)

Section Pdf.

Context {num : Type} `{EqDecision num}.
Variable str_num : num → string.
Variable fpdf_output : string → string → list string → bytes.
Implicit Types (df : DataFrame num) (fs : FontStore).

(** The font is on disk or was fetched, or the fetch raised and the
    warning was shown. *)
Lemma get_font_path_cases fs :
  ((font_exists fs = true ∨ fetch_font fs FONT_URL "fonts/DejaVuSans.ttf" = Ok ())
     ∧ get_font_path fs = Script [] (Done (Some "fonts/DejaVuSans.ttf")))
  ∨ (∃ exc,
       font_exists fs = false
       ∧ fetch_font fs FONT_URL "fonts/DejaVuSans.ttf" = Raise exc
       ∧ get_font_path fs
         = Script [st_warning ("PDF 생성용 폰트 준비에 실패했습니다: " +:+ exn_text exc)]
             (Done None)).
Proof.
  unfold get_font_path. destruct (font_exists fs); [left; by split; [left |] |].
  destruct (fetch_font fs FONT_URL "fonts/DejaVuSans.ttf") as [[] | exc].
  - left. by split; [right |].
  - right. by exists exc.
Qed.

(** C6. When [get_font_path] returns None, [build_repair_pdf] returns
    None without touching the table; the page then carries the warning
    shown when the fetch failed and, once the button is pressed, the
    error "PDF 생성에 실패했습니다...", and no download.  And whenever
    [build_repair_pdf] returns a document, [get_font_path] had returned
    the path of a font that is on disk or was fetched. *)
Theorem build_repair_pdf_needs_font fs df status_col :
  (∀ log,
     get_font_path fs = Script log (Done None) →
     build_repair_pdf str_num fpdf_output fs df status_col = Script log (Done None)
     ∧ (∃ exc, log = [st_warning ("PDF 생성용 폰트 준비에 실패했습니다: " +:+ exn_text exc)])
     ∧ pdf_button str_num fpdf_output fs df status_col
       = Script (log ++ [st_error "PDF 생성에 실패했습니다. 인터넷 연결을 확인 후 다시 시도하세요."])
           (Done ()))
  ∧ (∀ log doc,
       build_repair_pdf str_num fpdf_output fs df status_col = Script log (Done (Some doc)) →
       ∃ font_path,
         get_font_path fs = Script [] (Done (Some font_path))
         ∧ Py.truthy font_path = true
         ∧ (font_exists fs = true ∨ fetch_font fs FONT_URL font_path = Ok ())).
Proof.
  split.
  - intros log Hfont.
    assert (build_repair_pdf str_num fpdf_output fs df status_col = Script log (Done None))
      as Hbuild.
    { unfold build_repair_pdf. rewrite Hfont. unfold mbind, script_bind. simpl.
      by rewrite app_nil_r. }
    split; [done |]. split.
    + destruct (get_font_path_cases fs) as [[_ Hp] | (exc & _ & _ & Hp)];
        rewrite Hp in Hfont; [done |].
      injection Hfont as <-. by exists exc.
    + unfold pdf_button. rewrite Hbuild. reflexivity.
  - intros log doc Hbuild.
    destruct (get_font_path_cases fs) as [[Hav Hp] | (exc & _ & _ & Hp)].
    + by exists "fonts/DejaVuSans.ttf".
    + exfalso. unfold build_repair_pdf in Hbuild. rewrite Hp in Hbuild.
      unfold mbind, script_bind in Hbuild. simpl in Hbuild. done.
Qed.

End Pdf.

(* ===================================================================== *)
(** ** More on the batch merger *)
(* ===================================================================== *)

Section MergerMore.

Context {num : Type} `{EqDecision num}.
Variable read_excel read_csv : bytes → result (DataFrame num).
Implicit Types (df merged : DataFrame num) (frames : list (DataFrame num)).
Implicit Types (f : UploadedFile) (files : list UploadedFile).
Implicit Types (cols acc : list string).

Abbreviation decodes := (decodes read_excel read_csv).

(** A successful [pd.concat], replaced by the table it builds. *)
Ltac merged_inv frames H :=
  let E := fresh "Hne" in
  assert (frames ≠ []) as E by first [done | intros ->; discriminate H];
  rewrite (pd_concat_Ok _ E) in H; injection H as <-.

(** X1. [concat_uploads] always returns: the ValueError of [pd.concat]
    on an empty list is out of reach behind [if not frames].  It shows
    at most one message, none when it returns a table, and returns None
    without a message only for the empty batch. *)
Theorem concat_uploads_always_returns files :
  ∃ log r,
    concat_uploads read_excel read_csv files = Script log (Done r)
    ∧ length log ≤ 1
    ∧ (r ≠ None → log = [])
    ∧ (r = None ∧ log = [] ↔ files = []).
Proof.
  destruct (batch_cases read_excel read_csv files)
    as [[frames Hall] | (before & frames & bad & exc & after & -> & Hall & Hbad)].
  - destruct files as [|f files].
    + exists [], None. split_and!; [done | simpl; lia | done | done].
    + destruct (concat_uploads_all read_excel read_csv (f :: files) frames)
        as (merged & _ & Hrun); [done | done |].
      exists [], (Some merged). split_and!; [done | simpl; lia | done |].
      split; [by intros [? _] | done].
  - eexists _, None. split; [by eapply concat_uploads_first_failure |].
    split_and!; [simpl; lia | done |].
    split; [by intros [_ ?] | by destruct before].
Qed.

(** X2. The loop returns at the first file that does not decode: the
    files after it are not read, so what they hold changes nothing. *)
Theorem concat_uploads_stops_at_failure before frames bad exc after after' :
  Forall2 decodes before frames →
  load_excel_or_csv read_excel read_csv (content bad) = Raise exc →
  concat_uploads read_excel read_csv (before ++ bad :: after)
  = concat_uploads read_excel read_csv (before ++ bad :: after').
Proof.
  intros Hall Hbad.
  by rewrite !(concat_uploads_first_failure _ _ _ _ _ _ _ Hall Hbad).
Qed.

Lemma union_columns_fresh acc cols :
  NoDup cols → (∀ c, c ∈ cols → c ∉ acc) → union_columns acc cols = acc ++ cols.
Proof.
  unfold union_columns. revert acc.
  induction cols as [|c cols IH]; intros acc Hnd Hfresh; simpl.
  - by rewrite app_nil_r.
  - apply NoDup_cons in Hnd as [Hc Hnd].
    rewrite decide_False by (apply Hfresh, elem_of_cons; by left).
    rewrite IH; [by rewrite <- app_assoc | done |].
    intros c' Hc' [Hin | ->%list_elem_of_singleton]%elem_of_app; [| done].
    apply (Hfresh c'); [apply elem_of_cons; by right | done].
Qed.

Lemma union_columns_known acc cols :
  (∀ c, c ∈ cols → c ∈ acc) → union_columns acc cols = acc.
Proof.
  unfold union_columns. revert acc.
  induction cols as [|c cols IH]; intros acc Hknown; simpl; [done |].
  rewrite decide_True by (apply Hknown, elem_of_cons; by left).
  apply IH. intros c' Hc'. apply Hknown, elem_of_cons. by right.
Qed.

Lemma union_columns_prefix acc cols : acc `prefix_of` union_columns acc cols.
Proof.
  unfold union_columns. revert acc.
  induction cols as [|c cols IH]; intros acc; simpl; [done |].
  case_decide; [apply IH |].
  etrans; [| apply IH]. by apply prefix_app_r.
Qed.

Lemma joined_columns_prefix acc frames :
  acc `prefix_of` foldl union_columns acc (columns <$> frames).
Proof.
  revert acc. induction frames as [|d frames IH]; intros acc; csimpl; [done |].
  etrans; [apply union_columns_prefix | apply IH].
Qed.

Lemma joined_columns_same cols frames :
  Forall (λ df, columns df = cols) frames →
  foldl union_columns cols (columns <$> frames) = cols.
Proof.
  induction 1 as [|d frames Hd _ IH]; csimpl; [done |].
  rewrite Hd, union_columns_known; done.
Qed.

Lemma get_loc_NoDup cols c i : NoDup cols → cols !! i = Some c → get_loc cols c = Some i.
Proof.
  intros Hnd Hi.
  destruct (get_loc_Some cols c) as [j Hj]; [by eapply list_elem_of_lookup_2 |].
  rewrite Hj. f_equal.
  eapply NoDup_lookup; [done | by apply get_loc_lookup | done].
Qed.

(** Relabelling a full row to its own labels gives the row back. *)
Lemma reindex_same cols (r : list (value num)) :
  NoDup cols → length r = length cols → reindex cols cols r = r.
Proof.
  intros Hnd Hlen. apply list_eq. intros i.
  unfold reindex. rewrite list_lookup_fmap.
  destruct (cols !! i) as [c|] eqn:Hc; simpl.
  - unfold row_get. rewrite (get_loc_NoDup _ _ _ Hnd Hc). simpl.
    unfold at_pos.
    destruct (lookup_lt_is_Some_2 r i) as [x Hx];
      [rewrite Hlen; by eapply lookup_lt_Some |].
    by rewrite Hx.
  - symmetry. apply lookup_ge_None. rewrite Hlen. by apply lookup_ge_None.
Qed.

Lemma stack_same cols frames :
  NoDup cols → Forall (λ df, columns df = cols ∧ rectangular df) frames →
  (frames ≫= λ df, reindex (columns df) cols <$> rows df) = frames ≫= rows.
Proof.
  intros Hnd. induction 1 as [|d frames [Hd Hrect] _ IH]; csimpl; [done |].
  rewrite IH. f_equal. rewrite Hd.
  unfold rectangular in Hrect. rewrite Hd in Hrect.
  clear -Hnd Hrect. induction Hrect as [|r rs Hr _ IH]; csimpl; [done |].
  by rewrite reindex_same, IH.
Qed.

(** X5. Files that share one header (distinct labels, full rows) merge
    by plain concatenation of their rows under that header: no cell is
    moved or filled in.  A batch of one such file gives its table back. *)
Theorem concat_uploads_same_header cols files frames :
  files ≠ [] →
  Forall2 decodes files frames →
  NoDup cols →
  Forall (λ df, columns df = cols ∧ rectangular df) frames →
  concat_uploads read_excel read_csv files
  = Script [] (Done (Some (mkDataFrame cols (frames ≫= rows)))).
Proof.
  intros Hne Hall Hnd Hsame.
  destruct (concat_uploads_all read_excel read_csv files frames Hne Hall)
    as (merged & Hc & ->).
  do 3 f_equal. merged_inv frames Hc.
  destruct frames as [|d frames]; [done |].
  assert (foldl union_columns [] (columns <$> d :: frames) = cols) as Hcols.
  { apply Forall_cons in Hsame as [[Hd _] Hsame]. csimpl.
    rewrite Hd, union_columns_fresh; [| done | intros c _; apply not_elem_of_nil].
    simpl. apply joined_columns_same.
    eapply Forall_impl; [exact Hsame | by intros df [? _]]. }
  rewrite Hcols. f_equal. by apply stack_same.
Qed.

(** X6. The merged table starts with the columns of the first file, in
    that file's order; labels that only later files have come after. *)
Theorem concat_uploads_first_header f files log merged first :
  concat_uploads read_excel read_csv (f :: files) = Script log (Done (Some merged)) →
  decodes f first →
  NoDup (columns first) →
  columns first `prefix_of` columns merged.
Proof.
  intros (frames & Hall & Hc & _)%concat_uploads_Some Hf Hnd.
  apply Forall2_cons_inv_l in Hall as (d & frames' & Hd & _ & ->).
  unfold decodes in Hd, Hf. rewrite Hf in Hd. injection Hd as <-.
  merged_inv (first :: frames') Hc. csimpl.
  rewrite <- (union_columns_fresh [] (columns first)) at 1;
    [| done | intros c _; apply not_elem_of_nil].
  apply joined_columns_prefix.
Qed.

(** X3. Every table [concat_uploads] returns holds one cell per column
    in each row, whatever the headers of the files were. *)
Theorem concat_uploads_keeps_rows_full files log merged :
  concat_uploads read_excel read_csv files = Script log (Done (Some merged)) →
  rectangular merged.
Proof.
  intros (frames & _ & Hc & _)%concat_uploads_Some. by eapply pd_concat_rectangular.
Qed.

Lemma column_of_stack cols j c frames :
  get_loc cols c = Some j →
  Forall (λ df, c ∈ columns df) frames →
  ∃ ss,
    Forall2 (λ df s, getitem df c = Ok s) frames ss
    ∧ at_pos j <$> (frames ≫= λ df, reindex (columns df) cols <$> rows df) = mjoin ss.
Proof.
  intros Hj. induction 1 as [|d frames Hd _ (ss & Hss & IH)].
  - exists []. split; [constructor | done].
  - destruct (get_loc_Some _ _ Hd) as [i Hi].
    exists ((at_pos i <$> rows d) :: ss). split.
    + constructor; [| done]. unfold getitem. by rewrite Hi.
    + csimpl. rewrite fmap_app, IH. f_equal.
      rewrite <- list_fmap_compose. apply list_fmap_ext. intros _ r _. simpl.
      unfold at_pos at 1, reindex. rewrite list_lookup_fmap.
      rewrite (get_loc_lookup _ _ _ Hj). simpl. unfold row_get. by rewrite Hi.
Qed.

(** The merged column is the files' columns one after the other. *)
Lemma getitem_stack frames merged c :
  pd_concat frames = Ok merged →
  Forall (λ df, c ∈ columns df) frames →
  ∃ ss,
    Forall2 (λ df s, getitem df c = Ok s) frames ss
    ∧ getitem merged c = Ok (mjoin ss).
Proof.
  intros Hc Hall.
  assert (c ∈ columns merged) as Hin.
  { apply (pd_concat_columns _ _ _ Hc). destruct frames as [|d frames]; [done |].
    exists d. split; [apply elem_of_cons; by left | by apply Forall_cons in Hall as [? _]]. }
  apply get_loc_Some in Hin as [j Hj].
  merged_inv frames Hc. unfold getitem at 2. simpl in *. rewrite Hj.
  destruct (column_of_stack _ j c frames Hj Hall) as (ss & Hss & Hcol).
  exists ss. split; [done |]. by rewrite Hcol.
Qed.

Lemma occurrences_app (v : value num) s1 s2 :
  occurrences v (s1 ++ s2) = occurrences v s1 + occurrences v s2.
Proof. unfold occurrences. by rewrite filter_app, length_app. Qed.

(** X19. The counters add up over the files: when every file has the
    status column, the merged table's total, repair and disposal counts
    are the sums of the files' own counts. *)
Theorem status_counts_add_up files frames status_col :
  files ≠ [] →
  Forall2 decodes files frames →
  Forall (λ df, status_col ∈ columns df) frames →
  ∃ merged counts,
    concat_uploads read_excel read_csv files = Script [] (Done (Some merged))
    ∧ Forall2 (λ df c, status_counts df status_col = Ok c) frames counts
    ∧ status_counts merged status_col
      = Ok (sum_list (counts.*1.*1), sum_list (counts.*1.*2), sum_list (counts.*2)).
Proof.
  intros Hne Hall Hcol.
  destruct (concat_uploads_all read_excel read_csv files frames Hne Hall)
    as (merged & Hc & Hrun).
  destruct (getitem_stack frames merged status_col Hc Hcol) as (ss & Hss & Hm).
  exists merged,
    ((λ s, (length s, occurrences (VText NEEDS_REPAIR) s,
            occurrences (VText TO_DISPOSE) s)) <$> ss).
  split; [done |]. split.
  - clear -Hss. induction Hss as [|d s frames ss Hs _ IH]; csimpl; constructor; [| done].
    unfold status_counts. rewrite Hs. simpl. rewrite !mask_sum_eq_str.
    unfold len. unfold getitem in Hs. destruct (get_loc (columns d) status_col); [| done].
    injection Hs as <-. by rewrite length_fmap.
  - unfold status_counts. rewrite Hm. simpl. rewrite !mask_sum_eq_str.
    rewrite (pd_concat_len _ _ Hc).
    assert (Forall2 (λ df s, length s = len df) frames ss) as Hlen.
    { clear -Hss. induction Hss as [|d s frames ss Hs _ IH]; constructor; [| done].
      unfold getitem in Hs. destruct (get_loc (columns d) status_col); [| done].
      injection Hs as <-. by rewrite length_fmap. }
    clear -Hlen. do 2 f_equal; [f_equal |].
    + induction Hlen as [|d s frames ss Hs _ IH]; csimpl; [done |]. by rewrite Hs, IH.
    + clear Hlen. induction ss as [|s ss IH]; csimpl; [done |].
      by rewrite occurrences_app, IH.
    + clear Hlen. induction ss as [|s ss IH]; csimpl; [done |].
      by rewrite occurrences_app, IH.
Qed.

(** X18. When the batch decodes whole and the merged table has a row
    and a column, the script passes the gate silently: the run is the
    rest of the script on the merged table. *)
Theorem main_continues files frames (rest : DataFrame num → script ()) :
  files ≠ [] →
  Forall2 decodes files frames →
  (∃ df, df ∈ frames ∧ 0 < len df) →
  (∃ df, df ∈ frames ∧ columns df ≠ []) →
  ∃ merged,
    concat_uploads read_excel read_csv files = Script [] (Done (Some merged))
    ∧ empty merged = false
    ∧ main read_excel read_csv files rest = rest merged.
Proof.
  intros Hne Hall (d1 & Hd1 & Hrows) (d2 & Hd2 & Hcols).
  destruct (concat_uploads_all read_excel read_csv files frames Hne Hall)
    as (merged & Hc & Hrun).
  assert (empty merged = false) as Hempty.
  { unfold empty. apply orb_false_iff. split; apply Nat.eqb_neq.
    - rewrite (pd_concat_len _ _ Hc).
      assert (len d1 ≤ sum_list (len <$> frames)); [| lia].
      clear -Hd1. induction Hd1; csimpl; lia.
    - destruct (columns d2) as [|c cs] eqn:Hcs; [done |].
      assert (c ∈ columns merged) as Hin.
      { apply (pd_concat_columns _ _ _ Hc). exists d2.
        split; [done |]. rewrite Hcs. apply elem_of_cons. by left. }
      destruct (columns merged); [by apply elem_of_nil in Hin | simpl; lia]. }
  exists merged. split; [done |]. split; [done |].
  unfold main. destruct files as [|f files]; [done |].
  rewrite Hrun. unfold mbind, script_bind. simpl. rewrite Hempty.
  by destruct (rest merged).
Qed.

End MergerMore.

(* ===================================================================== *)
(** ** More on the serial rule *)
(* ===================================================================== *)

Section SerialMore.

Context {num : Type} `{EqDecision num}.
Variable str_num : num → string.
Implicit Types (df out : DataFrame num) (cols : list string).

Abbreviation rewrite_with := (rewrite_with str_num).

Lemma lower_char_caseless x a :
  caseless x = true → Ascii.eqb x (Py.lower_char a) = Ascii.eqb x a.
Proof.
  unfold caseless, Py.lower_char. intros Hx.
  destruct ((65 <=? nat_of_ascii a) && (nat_of_ascii a <=? 90)) eqn:Ha; [| done].
  apply andb_true_iff in Ha as [Ha1%Nat.leb_le Ha2%Nat.leb_le].
  apply negb_true_iff, orb_false_iff in Hx as [Hx1 Hx2].
  transitivity false; [| symmetry]; apply Ascii.eqb_neq; intros ->.
  - rewrite nat_ascii_embedding in Hx2 by lia.
    apply andb_false_iff in Hx2 as [Hx2%Nat.leb_gt | Hx2%Nat.leb_gt]; lia.
  - apply andb_false_iff in Hx1 as [Hx1%Nat.leb_gt | Hx1%Nat.leb_gt]; lia.
Qed.

Lemma startswith_lower_caseless tok s :
  forallb caseless (list_ascii_of_string tok) = true →
  Py.startswith tok (Py.lower s) = Py.startswith tok s.
Proof.
  revert s. induction tok as [|x tok IH]; intros s Htok; [by destruct s |].
  simpl in Htok. apply andb_true_iff in Htok as [Hx Htok].
  destruct s as [|a s]; simpl; [done |].
  by rewrite lower_char_caseless, IH.
Qed.

Lemma contains_lower_caseless tok s :
  forallb caseless (list_ascii_of_string tok) = true →
  Py.contains tok (Py.lower s) = Py.contains tok s.
Proof.
  intros Htok. induction s as [|a s IH].
  - by rewrite !PyFacts.contains_unfold.
  - rewrite (PyFacts.contains_unfold tok (String a s)), <- IH, <- startswith_lower_caseless by done.
    by rewrite PyFacts.contains_unfold.
Qed.

(** X10. The serial test does not see ASCII case: two names with the
    same lowering are both taken for serial columns, or neither is. *)
Theorem is_serial_ignores_case c c' :
  Py.lower c = Py.lower c' → is_serial c = is_serial c'.
Proof.
  intros Hlow. unfold is_serial. rewrite Hlow. f_equal.
  rewrite <- (contains_lower_caseless "시리얼" c), <- (contains_lower_caseless "시리얼" c') by done.
  by rewrite Hlow.
Qed.

Lemma rewrite_with_twice g h i df :
  rewrite_with g i (rewrite_with h i df) = rewrite_with (g ∘ h) i df.
Proof.
  unfold rewrite_with. simpl. f_equal.
  rewrite <- list_fmap_compose. apply list_fmap_ext. intros _ r _. simpl.
  destruct (decide (i < length r)) as [Hi | Hi].
  - by rewrite at_pos_insert_eq, list_insert_insert_eq.
  - by rewrite !(list_insert_ge r) by lia.
Qed.

Lemma rewrite_with_ext g h i df :
  (∀ t, g t = h t) → rewrite_with g i df = rewrite_with h i df.
Proof.
  intros Hgh. unfold rewrite_with. f_equal.
  apply list_fmap_ext. intros _ r _. simpl. by rewrite Hgh.
Qed.

(** Two rules in a row, each a prefix or a suffix rule. *)
Lemma apply_twice df kw1 g1 kw2 g2 text1 text2 col rest i :
  List.filter is_serial (columns df) = col :: rest →
  get_loc (columns df) col = Some i →
  (∀ df', List.filter is_serial (columns df') = col :: rest →
          get_loc (columns df') col = Some i →
          apply_serial_rule str_num df' (kw1 +:+ text1) = Ok (rewrite_with g1 i df')) →
  (∀ df', List.filter is_serial (columns df') = col :: rest →
          get_loc (columns df') col = Some i →
          apply_serial_rule str_num df' (kw2 +:+ text2) = Ok (rewrite_with g2 i df')) →
  (out ← apply_serial_rule str_num df (kw1 +:+ text1);
   apply_serial_rule str_num out (kw2 +:+ text2))
  = Ok (rewrite_with (g2 ∘ g1) i df).
Proof.
  intros Hf Hi H1 H2. rewrite (H1 df Hf Hi). simpl.
  rewrite (H2 (rewrite_with g1 i df) Hf Hi). by rewrite rewrite_with_twice.
Qed.

(** Two rules of one kind in a row are one rule with the joined text. *)
Lemma stacking_equations df a b :
  (out ← apply_serial_rule str_num df ("prefix=" +:+ a);
   apply_serial_rule str_num out ("prefix=" +:+ b))
  = apply_serial_rule str_num df ("prefix=" +:+ b +:+ a)
  ∧ (out ← apply_serial_rule str_num df ("suffix=" +:+ a);
     apply_serial_rule str_num out ("suffix=" +:+ b))
    = apply_serial_rule str_num df ("suffix=" +:+ a +:+ b).
Proof.
  destruct (List.filter is_serial (columns df)) as [|col rest] eqn:Hf.
  { split; rewrite !(apply_no_serial str_num df _ Hf); simpl;
      by rewrite (apply_no_serial str_num df _ Hf). }
  destruct (get_loc_Some (columns df) col) as [i Hi];
    [by eapply filter_serial_elem_of |].
  split.
  - rewrite (apply_twice df "prefix=" (λ t, a +:+ t) "prefix=" (λ t, b +:+ t) a b col rest i)
      by (try done; intros; by eapply apply_prefix).
    rewrite (apply_prefix str_num df col rest i) by done. f_equal.
    apply rewrite_with_ext. intros t. simpl. by rewrite PyFacts.app_assoc.
  - rewrite (apply_twice df "suffix=" (λ t, t +:+ a) "suffix=" (λ t, t +:+ b) a b col rest i)
      by (try done; intros; by eapply apply_suffix).
    rewrite (apply_suffix str_num df col rest i) by done. f_equal.
    apply rewrite_with_ext. intros t. simpl. by rewrite PyFacts.app_assoc.
Qed.

Lemma string_length_app (s t : string) :
  String.length (s +:+ t) = String.length s + String.length t.
Proof.
  induction s as [|x s IH]; [done |].
  rewrite PyFacts.app_cons. simpl. by rewrite IH.
Qed.

Lemma prefix_again_differs (a t : string) : a ≠ "" → a +:+ a +:+ t ≠ a +:+ t.
Proof.
  intros Ha Heq. apply (f_equal String.length) in Heq.
  rewrite !string_length_app in Heq. destruct a; [done | simpl in Heq; lia].
Qed.

Lemma suffix_again_differs (a t : string) : a ≠ "" → (t +:+ a) +:+ a ≠ t +:+ a.
Proof.
  intros Ha Heq. apply (f_equal String.length) in Heq.
  rewrite !string_length_app in Heq. destruct a; [done | simpl in Heq; lia].
Qed.

(** On a table with a row, rewriting the column a second time with a
    text function that never gives its argument back changes it again. *)
Lemma rewrite_again_differs g i df col :
  rectangular df → 0 < len df →
  get_loc (columns df) col = Some i →
  (∀ t, g (g t) ≠ g t) →
  rewrite_with g i (rewrite_with g i df) ≠ rewrite_with g i df.
Proof.
  intros Hrect Hlen Hi Hg Heq.
  destruct (lookup_lt_is_Some_2 (rows df) 0 Hlen) as [r Hr].
  assert (cell df 0 col = Some (at_pos i r)) as Hcell
    by (unfold cell, row_get; by rewrite Hr, Hi).
  pose proof (cell_rewrite_with_own str_num g i df col 0 _ Hrect Hi Hcell) as Honce.
  pose proof (cell_rewrite_with_own str_num (g ∘ g) i df col 0 _ Hrect Hi Hcell) as Htwice.
  rewrite <- rewrite_with_twice, Heq, Honce in Htwice.
  injection Htwice as Htwice. by apply (Hg (py_str str_num (at_pos i r))).
Qed.

(** X7. The rule stacks, and so is not idempotent.  [prefix=a] and then
    [prefix=b] is the one rule [prefix=ba], and [suffix=a] and then
    [suffix=b] is [suffix=ab].  And on a table with a row, full rows
    and a serial column, a rule with a non-empty text applied to its
    own result gives a table different from that result: the text is in
    front of (behind) every serial twice. *)
Theorem apply_serial_rule_stacks df a b :
  (out ← apply_serial_rule str_num df ("prefix=" +:+ a);
   apply_serial_rule str_num out ("prefix=" +:+ b))
  = apply_serial_rule str_num df ("prefix=" +:+ b +:+ a)
  ∧ (out ← apply_serial_rule str_num df ("suffix=" +:+ a);
     apply_serial_rule str_num out ("suffix=" +:+ b))
    = apply_serial_rule str_num df ("suffix=" +:+ a +:+ b)
  ∧ (rectangular df → 0 < len df →
     (∃ col, first_serial_column (columns df) col) → a ≠ "" →
     (∀ once twice,
        apply_serial_rule str_num df ("prefix=" +:+ a) = Ok once →
        apply_serial_rule str_num once ("prefix=" +:+ a) = Ok twice →
        twice ≠ once)
     ∧ (∀ once twice,
          apply_serial_rule str_num df ("suffix=" +:+ a) = Ok once →
          apply_serial_rule str_num once ("suffix=" +:+ a) = Ok twice →
          twice ≠ once)).
Proof.
  destruct (stacking_equations df a b) as [Hprefix Hsuffix].
  split; [done |]. split; [done |].
  intros Hrect Hlen [col Hhead%filter_serial_head] Ha.
  destruct (List.filter is_serial (columns df)) as [|col' rest] eqn:Hf; [done |].
  injection Hhead as ->.
  destruct (get_loc_Some (columns df) col) as [i Hi];
    [by eapply filter_serial_elem_of |].
  split; intros once twice Honce Htwice.
  - rewrite (apply_prefix str_num df col rest i a Hf Hi) in Honce. injection Honce as <-.
    rewrite (apply_prefix str_num (rewrite_with (λ t, a +:+ t) i df) col rest i a Hf Hi)
      in Htwice.
    injection Htwice as <-.
    apply (rewrite_again_differs _ _ _ col); try done.
    intros t. by apply prefix_again_differs.
  - rewrite (apply_suffix str_num df col rest i a Hf Hi) in Honce. injection Honce as <-.
    rewrite (apply_suffix str_num (rewrite_with (λ t, t +:+ a) i df) col rest i a Hf Hi)
      in Htwice.
    injection Htwice as <-.
    apply (rewrite_again_differs _ _ _ col); try done.
    intros t. by apply suffix_again_differs.
Qed.

(** X8. A prefix rule and a suffix rule can be applied in either order:
    the resulting tables are the same. *)
Theorem apply_serial_rule_prefix_suffix_commute df p s :
  (out ← apply_serial_rule str_num df ("prefix=" +:+ p);
   apply_serial_rule str_num out ("suffix=" +:+ s))
  = (out ← apply_serial_rule str_num df ("suffix=" +:+ s);
     apply_serial_rule str_num out ("prefix=" +:+ p)).
Proof.
  destruct (List.filter is_serial (columns df)) as [|col rest] eqn:Hf.
  { rewrite !(apply_no_serial str_num df _ Hf). simpl.
    by rewrite !(apply_no_serial str_num df _ Hf). }
  destruct (get_loc_Some (columns df) col) as [i Hi];
    [by eapply filter_serial_elem_of |].
  rewrite (apply_twice df "prefix=" (λ t, p +:+ t) "suffix=" (λ t, t +:+ s) p s col rest i)
    by (try done; intros; by (eapply apply_prefix || eapply apply_suffix)).
  rewrite (apply_twice df "suffix=" (λ t, t +:+ s) "prefix=" (λ t, p +:+ t) s p col rest i)
    by (try done; intros; by (eapply apply_prefix || eapply apply_suffix)).
  f_equal. apply rewrite_with_ext. intros t. simpl. by rewrite PyFacts.app_assoc.
Qed.

(** X9. A prefix or suffix rule turns the whole serial column into
    text: numbers are rendered, and a missing serial becomes the text
    "nan" with the rule's text around it. *)
Theorem apply_serial_rule_makes_text df col text :
  rectangular df →
  first_serial_column (columns df) col →
  (∃ out, apply_serial_rule str_num df ("prefix=" +:+ text) = Ok out
     ∧ (∀ i, i < len df → ∃ t, cell out i col = Some (VText t))
     ∧ (∀ i, cell df i col = Some NaN → cell out i col = Some (VText (text +:+ "nan"))))
  ∧ (∃ out, apply_serial_rule str_num df ("suffix=" +:+ text) = Ok out
     ∧ (∀ i, i < len df → ∃ t, cell out i col = Some (VText t))
     ∧ (∀ i, cell df i col = Some NaN → cell out i col = Some (VText ("nan" +:+ text)))).
Proof.
  intros Hrect Hfirst.
  pose proof Hfirst as Hhead. apply filter_serial_head in Hhead.
  destruct (List.filter is_serial (columns df)) as [|col' rest] eqn:Hf; [done |].
  injection Hhead as ->.
  destruct (get_loc_Some (columns df) col) as [j Hj];
    [by eapply filter_serial_elem_of |].
  assert (∀ i, i < len df → ∃ v, cell df i col = Some v) as Hcell.
  { intros i Hi. unfold cell, row_get. rewrite Hj.
    destruct (lookup_lt_is_Some_2 (rows df) i Hi) as [r ->]. by eexists. }
  split.
  - eexists. split; [by eapply apply_prefix |]. split.
    + intros i [v Hv]%Hcell. eexists.
      by apply (cell_rewrite_with_own str_num (λ t, text +:+ t) j df col i v).
    + intros i Hv.
      by apply (cell_rewrite_with_own str_num (λ t, text +:+ t) j df col i NaN).
  - eexists. split; [by eapply apply_suffix |]. split.
    + intros i [v Hv]%Hcell. eexists.
      by apply (cell_rewrite_with_own str_num (λ t, t +:+ text) j df col i v).
    + intros i Hv.
      by apply (cell_rewrite_with_own str_num (λ t, t +:+ text) j df col i NaN).
Qed.

Lemma getitem_rewrite_with_other g i df col c :
  get_loc (columns df) col = Some i → c ≠ col →
  getitem (rewrite_with g i df) c = getitem df c.
Proof.
  intros Hi Hc. unfold getitem, rewrite_with. simpl.
  destruct (get_loc (columns df) c) as [j|] eqn:Hj; [| done].
  f_equal. rewrite <- list_fmap_compose. apply list_fmap_ext. intros _ r _. simpl.
  apply at_pos_insert_ne. intros <-. apply Hc. by eapply get_loc_inj.
Qed.

(** X11. What the script computes from a column the rule did not
    select is the same before and after the rule: the column itself,
    the status counters over it and the grouped counts by it. *)
Theorem apply_serial_rule_keeps_summaries df rule out c :
  apply_serial_rule str_num df rule = Ok out →
  ¬ first_serial_column (columns df) c →
  getitem out c = getitem df c
  ∧ status_counts out c = status_counts df c
  ∧ dept_count out c = dept_count df c
  ∧ type_count out c = type_count df c.
Proof.
  intros Hout Hc.
  assert (getitem out c = getitem df c ∧ len out = len df) as [Hget Hlen].
  { destruct (apply_serial_rule_cases str_num df rule)
      as [Hid | (col & i & g & Hfirst & Hi & Hrw)].
    - rewrite Hid in Hout. by injection Hout as <-.
    - rewrite Hrw in Hout. injection Hout as <-.
      split; [| apply len_rewrite_with].
      eapply getitem_rewrite_with_other; [done |]. by intros ->. }
  split; [done |].
  unfold status_counts, dept_count, type_count, groupby_size.
  by rewrite Hget, Hlen.
Qed.

End SerialMore.

(* ===================================================================== *)
(** ** More on the summaries, the selectors and the PDF *)
(* ===================================================================== *)

Section ScriptMore.

Context {num : Type} `{EqDecision num}.
Variable str_num : num → string.
Variable fpdf_output : string → string → list string → bytes.
Implicit Types (df : DataFrame num) (fs : FontStore) (s : Series num).

(** X15. [dept_count] and [type_count] return a frame exactly for a
    grouping column that is a column of the table and is not itself
    called "count"; the frame has the grouping label and "count" as its
    two labels.  On a column called "count", [reset_index(name="count")]
    raises ValueError; on a label that is no column, groupby raises
    KeyError. *)
Theorem grouped_count_returns_iff df col :
  ((∃ agg, dept_count df col = Ok agg) ↔ col ∈ columns df ∧ col ≠ "count")
  ∧ ((∃ agg, type_count df col = Ok agg) ↔ col ∈ columns df ∧ col ≠ "count")
  ∧ (∀ agg, dept_count df col = Ok agg ∨ type_count df col = Ok agg →
            key_label agg = col ∧ count_label agg = "count")
  ∧ (col ∈ columns df → col = "count" →
       dept_count df col = Raise (ValueError "cannot insert count, already exists")
       ∧ type_count df col = Raise (ValueError "cannot insert count, already exists"))
  ∧ (col ∉ columns df →
       dept_count df col = Raise (KeyError col) ∧ type_count df col = Raise (KeyError col)).
Proof.
  unfold dept_count, type_count, groupby_size, getitem, reset_index.
  destruct (get_loc (columns df) col) as [i|] eqn:Hi; simpl.
  - apply get_loc_elem_of in Hi.
    destruct (decide (col = "count")) as [-> | Hcol]; simpl.
    + split_and!; try done.
      * split; [by intros [? ?] | by intros [_ ?]].
      * split; [by intros [? ?] | by intros [_ ?]].
      * by intros agg [? | ?].
    + split_and!; try done.
      * split; [done | by eexists].
      * split; [done | by eexists].
      * by intros agg [[= <-] | [= <-]].
  - apply get_loc_None in Hi. split_and!; try done.
    + split; [by intros [? ?] | by intros [? _]].
    + split; [by intros [? ?] | by intros [? _]].
    + by intros agg [? | ?].
Qed.

Lemma occurrences_pos (v : value num) s : v ∈ s → 1 ≤ occurrences v s.
Proof.
  induction s as [|x s IH]; intros Hv; [by apply elem_of_nil in Hv |].
  rewrite occurrences_cons. case_decide as Hx; [lia |].
  apply elem_of_cons in Hv as [-> | Hv]; [done |]. apply IH in Hv. lia.
Qed.

(** X16. No group is empty, and there is no group at all exactly when
    the table has no rows. *)
Theorem groupby_size_no_empty_group df col sizes :
  groupby_size df col = Ok sizes →
  Forall (λ p, 1 ≤ p.2) sizes ∧ (sizes = [] ↔ len df = 0).
Proof.
  unfold groupby_size, getitem.
  destruct (get_loc (columns df) col) as [i|]; [| done]. simpl. intros [= <-].
  set (keys := at_pos i <$> rows df).
  destruct (tally_spec keys []) as (Hsum & Hnd & Hin & Hsize).
  assert (length keys = len df) as Hlen by (unfold keys; by rewrite length_fmap).
  split.
  - apply Forall_forall. intros [v n] Hvn. simpl.
    rewrite <- (size_of_elem_of v n _ (Hnd (NoDup_nil_2)) Hvn), Hsize. simpl.
    apply occurrences_pos.
    assert (v ∈ (foldl (λ acc k, count_key k acc) [] keys).*1) as Hkey
      by (apply list_elem_of_fmap; by exists (v, n)).
    apply Hin in Hkey as [Hkey | Hkey]; [by apply elem_of_nil in Hkey | done].
  - rewrite <- Hlen. split.
    + intros Hnil. rewrite Hnil in Hsum. simpl in Hsum. lia.
    + intros Hzero. by destruct keys.
Qed.

Lemma filter_options candidates cols o :
  (∀ c, c ∈ candidates → c ∈ cols) → o ∈ options_or candidates cols → o ∈ cols.
Proof. intros Hsub. destruct candidates; simpl; [done | apply Hsub]. Qed.

Lemma filter_elem_of_cols (p : string → bool) cols c : c ∈ List.filter p cols → c ∈ cols.
Proof.
  rewrite !list_elem_of_In. intros Hc. by apply filter_In in Hc as [? _].
Qed.

Lemma has_keyword_iff keywords c :
  has_keyword keywords c = true ↔ keyword_name keywords c.
Proof.
  unfold has_keyword, keyword_name. rewrite existsb_exists.
  split; intros (k & Hk & Hc); exists k.
  - split; [by apply list_elem_of_In | by apply PyFacts.contains_lower_iff].
  - split; [by apply list_elem_of_In | by apply PyFacts.contains_lower_iff].
Qed.

Lemma has_keyword_false keywords c :
  has_keyword keywords c = false ↔ ¬ keyword_name keywords c.
Proof.
  rewrite <- has_keyword_iff. by destruct (has_keyword keywords c).
Qed.

(** The options are the columns that pass the test or, when none does,
    all the columns. *)
Lemma options_filter_iff (p : string → bool) cols o :
  o ∈ options_or (List.filter p cols) cols
  ↔ o ∈ cols ∧ (p o = true ∨ ∀ c, c ∈ cols → p c = false).
Proof.
  destruct (List.filter p cols) as [|c0 l] eqn:Hf; simpl.
  - assert (∀ c, c ∈ cols → p c = false) as Hnone.
    { intros c Hc. destruct (p c) eqn:Hp; [| done].
      assert (In c (List.filter p cols)) as Hin
        by (apply filter_In; split; [by apply list_elem_of_In | done]).
      by rewrite Hf in Hin. }
    split; [intros Ho; split; [done | by right] | by intros [? _]].
  - rewrite <- Hf. split.
    + intros Ho. apply list_elem_of_In, filter_In in Ho as [Ho Hp].
      split; [by apply list_elem_of_In | by left].
    + intros [Ho [Hp | Hnone]].
      * apply list_elem_of_In, filter_In. split; [by apply list_elem_of_In | done].
      * assert (In c0 (List.filter p cols)) as Hin by (rewrite Hf; by left).
        apply filter_In in Hin as [Hin Hp0]. apply list_elem_of_In in Hin.
        rewrite (Hnone c0 Hin) in Hp0. done.
Qed.

Lemma options_all (p : string → bool) cols :
  (∀ c, c ∈ cols → p c = false) → options_or (List.filter p cols) cols = cols.
Proof.
  intros Hnone. destruct (List.filter p cols) as [|c0 l] eqn:Hf; [done |].
  assert (In c0 (List.filter p cols)) as Hin by (rewrite Hf; by left).
  apply filter_In in Hin as [Hin Hp0]. apply list_elem_of_In in Hin.
  rewrite (Hnone c0 Hin) in Hp0. done.
Qed.

(** X17. The department selector offers exactly the columns whose name
    holds "dept", "department" or "부서" (case-insensitively) or, when
    no column name does, all the columns of the table, in table order;
    the type selector does the same with "model", "type", "종류" and
    "모델".  So every option is a column and grouping by it never
    raises KeyError, and past the gate ([df.empty] false) neither
    selector is without options. *)
Theorem selector_options_are_columns df :
  (∀ o, o ∈ dept_options df
        ↔ o ∈ columns df
          ∧ (keyword_name ["dept"; "department"; "부서"] o
             ∨ ∀ c, c ∈ columns df → ¬ keyword_name ["dept"; "department"; "부서"] c))
  ∧ (∀ o, o ∈ type_options df
          ↔ o ∈ columns df
            ∧ (keyword_name ["model"; "type"; "종류"; "모델"] o
               ∨ ∀ c, c ∈ columns df → ¬ keyword_name ["model"; "type"; "종류"; "모델"] c))
  ∧ ((∀ c, c ∈ columns df → ¬ keyword_name ["dept"; "department"; "부서"] c) →
     dept_options df = columns df)
  ∧ ((∀ c, c ∈ columns df → ¬ keyword_name ["model"; "type"; "종류"; "모델"] c) →
     type_options df = columns df)
  ∧ (∀ o, o ∈ dept_options df ∨ o ∈ type_options df →
          ∃ sizes, groupby_size df o = Ok sizes)
  ∧ (empty df = false → dept_options df ≠ [] ∧ type_options df ≠ []).
Proof.
  assert (∀ kws o,
            o ∈ options_or (List.filter (has_keyword kws) (columns df)) (columns df)
            ↔ o ∈ columns df
              ∧ (keyword_name kws o ∨ ∀ c, c ∈ columns df → ¬ keyword_name kws c))
    as Hoptions.
  { intros kws o. rewrite options_filter_iff, has_keyword_iff.
    by setoid_rewrite has_keyword_false. }
  assert (∀ kws, (∀ c, c ∈ columns df → ¬ keyword_name kws c) →
                 options_or (List.filter (has_keyword kws) (columns df)) (columns df)
                 = columns df) as Hall.
  { intros kws Hnone. apply options_all. intros c Hc.
    by apply has_keyword_false, Hnone. }
  split_and!.
  - intros o. apply Hoptions.
  - intros o. apply Hoptions.
  - apply Hall.
  - apply Hall.
  - intros o Ho.
    assert (o ∈ columns df) as [i Hi]%get_loc_Some
      by (destruct Ho as [Ho | Ho]; by apply Hoptions in Ho as [? _]).
    unfold groupby_size, getitem. rewrite Hi. by eexists.
  - unfold empty. intros [_ Hcols%Nat.eqb_neq]%orb_false_iff.
    unfold dept_options, type_options, options_or.
    destruct (columns df) eqn:Hc; [done |].
    split; [by destruct (dept_candidates df) | by destruct (type_candidates df)].
Qed.

Lemma select_rows_fmap (p : list (value num) → bool) (rs : list (list (value num))) :
  select_rows rs (p <$> rs) = List.filter p rs.
Proof. induction rs as [|r rs IH]; csimpl; [done |]. rewrite IH. by destruct (p r). Qed.

Lemma mask_sum_fmap {A} (p : A → bool) (l : list A) :
  mask_sum (p <$> l) = length (List.filter p l).
Proof.
  unfold mask_sum. induction l as [|x l IH]; [done |].
  rewrite fmap_cons. cbn [List.filter]. unfold id at 1.
  destruct (p x); cbn [length]; by rewrite IH.
Qed.

Lemma script_bind_ret {A B} (a : A) (k : A → script B) :
  (x ← Script [] (Done a); k x) = k a.
Proof. unfold mbind, script_bind. simpl. by destruct (k a). Qed.

Lemma get_font_path_available fs :
  font_exists fs = true ∨ fetch_font fs FONT_URL "fonts/DejaVuSans.ttf" = Ok () →
  get_font_path fs = Script [] (Done (Some "fonts/DejaVuSans.ttf")).
Proof.
  intros Hav. destruct (get_font_path_cases fs) as [[_ Hp] | (exc & Hno & Hfetch & _)];
    [done |].
  destruct Hav as [Hav | Hav]; congruence.
Qed.

(** X12. With the font at hand and a status column of the table,
    [build_repair_pdf] shows nothing and returns the document fpdf
    writes from the title and one line per row whose status is
    "수리 필요", in table order; there are as many lines as the
    "수리 필요" counter of the summary says. *)
Theorem build_repair_pdf_lists_repairs fs df status_col :
  font_exists fs = true ∨ fetch_font fs FONT_URL "fonts/DejaVuSans.ttf" = Ok () →
  status_col ∈ columns df →
  ∃ j to_repair to_dispose,
    get_loc (columns df) status_col = Some j
    ∧ to_repair = List.filter (λ r, bool_decide (at_pos j r = VText NEEDS_REPAIR)) (rows df)
    ∧ build_repair_pdf str_num fpdf_output fs df status_col
      = Script [] (Done (Some (fpdf_output "fonts/DejaVuSans.ttf" "수리 대상자 목록"
                                 (pdf_line str_num (columns df) <$> to_repair))))
    ∧ status_counts df status_col = Ok (len df, length to_repair, to_dispose).
Proof.
  intros Hav [j Hj]%get_loc_Some.
  assert (getitem df status_col = Ok (at_pos j <$> rows df)) as Hget
    by (unfold getitem; by rewrite Hj).
  assert (∀ lit, eq_str (at_pos j <$> rows df) lit
                 = (λ r, bool_decide (at_pos j r = VText lit)) <$> rows df) as Hmask
    by (intros lit; unfold eq_str; by rewrite <- list_fmap_compose).
  exists j, (List.filter (λ r, bool_decide (at_pos j r = VText NEEDS_REPAIR)) (rows df)),
    (mask_sum (eq_str (at_pos j <$> rows df) TO_DISPOSE)).
  split; [done |]. split; [done |]. split.
  - unfold build_repair_pdf. rewrite (get_font_path_available fs Hav), script_bind_ret.
    change (negb (Py.truthy "fonts/DejaVuSans.ttf")) with false. cbv iota.
    rewrite Hget. unfold call. rewrite script_bind_ret.
    unfold loc_mask. cbn [rows columns]. rewrite Hmask, select_rows_fmap.
    reflexivity.
  - unfold status_counts. rewrite Hget. cbn [mbind result_bind].
    by rewrite Hmask, mask_sum_fmap.
Qed.

(** X13. A status column that is no column of the table: the summary
    raises KeyError, and so does [build_repair_pdf] - but only with the
    font at hand, as the font is looked for first. *)
Theorem missing_status_column fs df status_col :
  status_col ∉ columns df →
  getitem df status_col = Raise (KeyError status_col)
  ∧ status_counts df status_col = Raise (KeyError status_col)
  ∧ (font_exists fs = true ∨ fetch_font fs FONT_URL "fonts/DejaVuSans.ttf" = Ok () →
     build_repair_pdf str_num fpdf_output fs df status_col
     = Script [] (Crashed (KeyError status_col))
     ∧ pdf_button str_num fpdf_output fs df status_col
       = Script [] (Crashed (KeyError status_col))).
Proof.
  intros Hc.
  assert (getitem df status_col = Raise (KeyError status_col)) as Hget.
  { unfold getitem. destruct (get_loc (columns df) status_col) eqn:Hj; [| done].
    by apply get_loc_elem_of in Hj. }
  split; [done |]. split; [unfold status_counts; by rewrite Hget |].
  intros Hav.
  assert (build_repair_pdf str_num fpdf_output fs df status_col
          = Script [] (Crashed (KeyError status_col))) as Hbuild.
  { unfold build_repair_pdf. rewrite (get_font_path_available fs Hav).
    unfold mbind, script_bind. simpl. by rewrite Hget. }
  split; [done |]. unfold pdf_button. by rewrite Hbuild.
Qed.

(** X14. The button offers a download only for a non-empty document
    that [build_repair_pdf] returned with the font at hand; the download
    is then all the page gets: "repair_list.pdf" as "application/pdf",
    and no error beside it. *)
Theorem pdf_button_download fs df status_col label data file_name mime :
  st_download_button label data file_name mime
    ∈ shown (pdf_button str_num fpdf_output fs df status_col) →
  pdf_button str_num fpdf_output fs df status_col
  = Script [st_download_button "PDF 다운로드" data "repair_list.pdf" "application/pdf"]
      (Done ())
  ∧ build_repair_pdf str_num fpdf_output fs df status_col = Script [] (Done (Some data))
  ∧ data ≠ ""
  ∧ (font_exists fs = true ∨ fetch_font fs FONT_URL "fonts/DejaVuSans.ttf" = Ok ()).
Proof.
  unfold pdf_button, build_repair_pdf.
  destruct (get_font_path_cases fs) as [[Hav Hp] | (exc & _ & _ & Hp)]; rewrite Hp.
  - unfold mbind, script_bind. simpl.
    destruct (getitem df status_col) as [status | e]; simpl.
    + match goal with |- context [Py.truthy ?d] => remember d as doc eqn:Hd end.
      clear Hd. destruct doc as [|a doc]; simpl.
      * intros Hin. apply list_elem_of_singleton in Hin. done.
      * intros Hin. apply list_elem_of_singleton in Hin.
        by injection Hin as -> -> -> ->.
    + intros Hin. by apply elem_of_nil in Hin.
  - unfold mbind, script_bind. simpl.
    intros Hin. apply elem_of_cons in Hin as [Hin | Hin]; [done |].
    apply list_elem_of_singleton in Hin. done.
Qed.

End ScriptMore.

(* ===================================================================== *)
(** ** The theorems at the sample data *)
(* ===================================================================== *)

Module SampleFacts.

Import Sample.

Ltac in_list := apply list_elem_of_In; simpl; tauto.

(** The spec's scenario: files A and B merge into three rows, B's row last. *)
Lemma concat_uploads_rows_in_order_sample :
  ∃ merged,
    concat_uploads read_excel read_csv [file_A; file_B] = Script [] (Done (Some merged))
    ∧ len merged = 3
    ∧ cell merged 2 "Name" = Some (VText "B1").
Proof.
  destruct (concat_uploads_rows_in_order read_excel read_csv
              [file_A; file_B] [table_A; table_B])
    as (merged & Hrun & Hlen & Hcell).
  - done.
  - repeat constructor.
  - exists merged. split; [exact Hrun |]. split; [exact Hlen |].
    apply (Hcell 1 table_B 0 "Name"); [reflexivity | vm_compute; lia | in_list].
Defined.

(** One undecodable file between two good ones: no table, one error. *)
Lemma concat_uploads_aborts_sample :
  ∃ before bad after exc,
    [file_A; file_bad; file_B] = before ++ bad :: after
    ∧ (∃ frames, Forall2 (decodes read_excel read_csv) before frames)
    ∧ (∃ e, read_excel (content bad) = Raise e)
    ∧ read_csv (content bad) = Raise exc
    ∧ concat_uploads read_excel read_csv [file_A; file_bad; file_B]
      = Script [st_error (name bad +:+ " 읽기 오류: " +:+ exn_text exc)] (Done None).
Proof.
  apply (concat_uploads_aborts read_excel read_csv [file_A; file_bad; file_B] file_bad).
  - in_list.
  - by eexists.
  - by eexists.
Defined.

(** The spec's scenario: "001" under Serial becomes "HQ-001". *)
Lemma apply_serial_rule_rewrites_column_sample :
  ∃ out,
    apply_serial_rule str_num table_HQ "prefix=HQ-" = Ok out
    ∧ cell out 0 "Serial" = Some (VText "HQ-001")
    ∧ cell out 1 "Serial" = Some (VText "HQ-17").
Proof.
  destruct (apply_serial_rule_rewrites_column str_num table_HQ "Serial" "HQ-")
    as [(out & Hout & _ & Hcell) _].
  - repeat constructor.
  - exists ["Name"], ["Serial2"]. split; [done |]. split.
    + left. exists "", "Serial", "". split; reflexivity.
    + intros c ->%list_elem_of_singleton Hs%is_serial_iff. vm_compute in Hs. done.
  - exists out. split; [exact Hout |]. split.
    + apply (Hcell 0 (VText "001")). reflexivity.
    + apply (Hcell 1 (VNum 17%Z)). reflexivity.
Defined.

(** The spec's scenario: total 3, one to repair, one to dispose of. *)
Lemma status_counts_bound_sample :
  status_counts table_AB "Status" = Ok (3, 1, 1) ∧ 1 + 1 ≤ 3.
Proof.
  destruct (status_counts_bound table_AB "Status")
    as (status & need_repair & to_dispose & Hs & Hcounts & -> & -> & Hle & _).
  - in_list.
  - vm_compute in Hs. injection Hs as <-. split; [exact Hcounts | exact Hle].
Defined.

(** Two of Lab's rows: one department and one missing value, one row each. *)
Lemma grouped_count_partition_sample :
  ∃ sizes,
    dept_count table_Lab "Dept" = Ok (mkAggregation "Dept" "count" sizes)
    ∧ sum_list sizes.*2 = 2
    ∧ NaN ∈ sizes.*1.
Proof.
  destruct (grouped_count_partition table_Lab "Dept")
    as (keys & sizes & Hkeys & Hsizes & Hdept & _ & Hsum & _ & Hin & _).
  - in_list.
  - exists sizes. split; [exact Hdept |]. split; [exact Hsum |].
    apply Hin. vm_compute in Hkeys. injection Hkeys as <-. in_list.
Defined.

(** Offline and no font on disk: the warning, then the error, no download. *)
Lemma build_repair_pdf_needs_font_sample :
  build_repair_pdf str_num fpdf_output offline table_A "Status"
  = Script (shown (get_font_path offline)) (Done None)
  ∧ pdf_button str_num fpdf_output offline table_A "Status"
    = Script (shown (get_font_path offline)
              ++ [st_error "PDF 생성에 실패했습니다. 인터넷 연결을 확인 후 다시 시도하세요."])
        (Done ()).
Proof.
  destruct (proj1 (build_repair_pdf_needs_font str_num fpdf_output offline table_A "Status")
              (shown (get_font_path offline)) eq_refl)
    as (Hbuild & _ & Hbutton).
  split; [exact Hbuild | exact Hbutton].
Defined.

(** A header-only file: a table without rows comes back, and the script
    warns and halts. *)
Lemma empty_batch_outcome_sample :
  concat_uploads read_excel read_csv [file_none] = Script [] (Done (Some table_none))
  ∧ main read_excel read_csv [file_none] rest
    = Script [st_warning "데이터가 비어 있거나 읽기에 실패했습니다."] Stopped.
Proof.
  split; [reflexivity |].
  apply (proj2 (proj2 (empty_batch_outcome read_excel read_csv [file_none] rest))
           [] (Some table_none)).
  - done.
  - reflexivity.
  - right. by exists table_none.
Defined.

(** C7, the sentence as the spec has it, fails twice: with no file
    uploaded the script shows an info message, no warning, and is not
    halted; and a header-only file makes [concat_uploads] return a
    table (without rows), not None. *)
Lemma empty_result_counterexample :
  main read_excel read_csv [] rest
  = Script [st_info "좌측의 업로드 영역을 통해 여러 엑셀/CSV 파일을 올려 주세요."] (Done ())
  ∧ concat_uploads read_excel read_csv [file_none] = Script [] (Done (Some table_none))
  ∧ ¬ empty_result_as_stated read_excel read_csv.
Proof.
  split; [reflexivity |]. split; [reflexivity |].
  intros Hclaim. destruct (Hclaim [] rest) as (_ & Hstop & _); [by left |].
  discriminate Hstop.
Qed.

(** HQ has no Dept column and Lab no Serial column: each gets NaN there. *)
Lemma concat_uploads_aligns_columns_sample :
  concat_uploads read_excel read_csv [file_HQ; file_Lab]
  = Script [] (Done (Some table_HQ_Lab))
  ∧ cell table_HQ_Lab 2 "Serial" = Some NaN
  ∧ cell table_HQ_Lab 0 "Dept" = Some NaN.
Proof.
  destruct (concat_uploads_aligns_columns read_excel read_csv
              [file_HQ; file_Lab] [] table_HQ_Lab eq_refl)
    as (frames & Hall & _ & _ & Hcell).
  apply Forall2_cons_inv_l in Hall as (d1 & frames1 & Hd1 & Hall & ->).
  apply Forall2_cons_inv_l in Hall as (d2 & frames2 & Hd2 & Hall & ->).
  apply Forall2_nil_inv_l in Hall as ->.
  vm_compute in Hd1. injection Hd1 as <-.
  vm_compute in Hd2. injection Hd2 as <-.
  split; [reflexivity |]. split.
  - apply (Hcell 1 table_Lab 0 "Serial"); [reflexivity | vm_compute; lia | in_list |].
    rewrite list_elem_of_In. simpl. intuition discriminate.
  - apply (Hcell 0 table_HQ 0 "Dept"); [reflexivity | vm_compute; lia | in_list |].
    rewrite list_elem_of_In. simpl. intuition discriminate.
Defined.

(** No serial column in A: the rule changes nothing. *)
Lemma apply_serial_rule_identity_sample :
  apply_serial_rule str_num table_A "prefix=HQ-" = Ok table_A.
Proof.
  apply (proj1 (apply_serial_rule_identity str_num table_A "prefix=HQ-")).
  intros c Hc Hs%is_serial_iff.
  apply list_elem_of_In in Hc. simpl in Hc.
  destruct Hc as [<- | [<- | []]]; vm_compute in Hs; discriminate Hs.
Defined.

(** A table with a column called "count": the default grouping column of
    the script when no department column is found. *)
Lemma grouped_count_label_clash_sample :
  groupby_size table_stock "count" = Ok [(VNum 3%Z, 2)]
  ∧ dept_count table_stock "count"
    = Raise (ValueError "cannot insert count, already exists").
Proof. split; reflexivity. Qed.

(** C5, at the failing input.  A table with the columns "count" and
    "Status" passes the gate; no column name holds a department
    keyword, so the department selector offers all columns with "count"
    as its default.  The groups by "count" are computed, and add up to
    the two rows, but [reset_index(name="count")] raises ValueError:
    [dept_count] and [type_count] return no aggregation. *)
Theorem grouped_count_fails_on_count :
  empty table_stock = false
  ∧ dept_options table_stock = ["count"; "Status"]
  ∧ head (dept_options table_stock) = Some "count"
  ∧ groupby_size table_stock "count" = Ok [(VNum 3%Z, 2)]
  ∧ len table_stock = 2
  ∧ dept_count table_stock "count"
    = Raise (ValueError "cannot insert count, already exists")
  ∧ type_count table_stock "count"
    = Raise (ValueError "cannot insert count, already exists").
Proof. repeat split. Qed.

End SampleFacts.

(* ===================================================================== *)
(** ** The further theorems at the sample data *)
(* ===================================================================== *)

Module MoreSampleFacts.

Import Sample.

Ltac in_list := apply list_elem_of_In; simpl; tauto.
Ltac not_in_list := rewrite list_elem_of_In; simpl; intuition discriminate.
Ltac no_dup := repeat (apply NoDup_cons_2; [not_in_list |]); apply NoDup_nil_2.

Lemma serial_is_first_serial :
  first_serial_column (columns table_HQ_Lab) "Serial".
Proof. apply filter_serial_head. reflexivity. Qed.

(** What comes after the undecodable file does not matter. *)
Lemma concat_uploads_stops_at_failure_sample :
  concat_uploads read_excel read_csv [file_A; file_bad; file_B]
  = concat_uploads read_excel read_csv [file_A; file_bad; file_HQ; file_Lab].
Proof.
  apply (concat_uploads_stops_at_failure read_excel read_csv
           [file_A] [table_A] file_bad (Exn "ParserError" "Error tokenizing data")
           [file_B] [file_HQ; file_Lab]).
  - repeat constructor.
  - reflexivity.
Defined.

(** HQ and Lab have different headers; the merged rows are full. *)
Lemma concat_uploads_keeps_rows_full_sample : rectangular table_HQ_Lab.
Proof.
  apply (concat_uploads_keeps_rows_full read_excel read_csv
           [file_HQ; file_Lab] [] table_HQ_Lab).
  reflexivity.
Defined.

Lemma apply_serial_rule_rectangular_sample :
  ∃ out, apply_serial_rule str_num table_HQ "suffix=-2025" = Ok out ∧ rectangular out.
Proof.
  eexists. split; [reflexivity |].
  apply (apply_serial_rule_rectangular str_num table_HQ "suffix=-2025").
  - repeat constructor.
  - reflexivity.
Defined.

(** A and B share their header: the merge is A's rows, then B's. *)
Lemma concat_uploads_same_header_sample :
  concat_uploads read_excel read_csv [file_A; file_B] = Script [] (Done (Some table_AB)).
Proof.
  apply (concat_uploads_same_header read_excel read_csv
           ["Name"; "Status"] [file_A; file_B] [table_A; table_B]).
  - done.
  - repeat constructor.
  - no_dup.
  - repeat constructor.
Defined.

Lemma concat_uploads_first_header_sample :
  ["Name"; "Serial"; "Serial2"] `prefix_of` columns table_HQ_Lab.
Proof.
  apply (concat_uploads_first_header read_excel read_csv
           file_HQ [file_Lab] [] table_HQ_Lab table_HQ).
  - reflexivity.
  - reflexivity.
  - no_dup.
Defined.

(** Lab's rows have no serial: "HQ-nan" after the rule. *)
Lemma apply_serial_rule_makes_text_sample :
  ∃ out,
    apply_serial_rule str_num table_HQ_Lab "prefix=HQ-" = Ok out
    ∧ cell out 2 "Serial" = Some (VText "HQ-nan").
Proof.
  destruct (apply_serial_rule_makes_text str_num table_HQ_Lab "Serial" "HQ-")
    as [(out & Hout & _ & Hnan) _].
  - repeat constructor.
  - exact serial_is_first_serial.
  - exists out. split; [exact Hout |]. apply (Hnan 2). reflexivity.
Defined.

Lemma is_serial_ignores_case_sample : is_serial "SERIAL No" = is_serial "serial no".
Proof. apply is_serial_ignores_case. reflexivity. Defined.

(** The rule on Serial leaves the grouped count by Dept as it was. *)
Lemma apply_serial_rule_keeps_summaries_sample :
  ∃ out,
    apply_serial_rule str_num table_HQ_Lab "prefix=HQ-" = Ok out
    ∧ dept_count out "Dept" = dept_count table_HQ_Lab "Dept".
Proof.
  eexists. split; [reflexivity |].
  apply (apply_serial_rule_keeps_summaries str_num table_HQ_Lab "prefix=HQ-" _ "Dept").
  - reflexivity.
  - intros Hfirst%filter_serial_head. vm_compute in Hfirst. discriminate Hfirst.
Defined.

(** One row of A and B needs repair: one line in the PDF. *)
Lemma build_repair_pdf_lists_repairs_sample :
  ∃ to_repair,
    build_repair_pdf str_num fpdf_output on_disk table_AB "Status"
    = Script [] (Done (Some (fpdf_output "fonts/DejaVuSans.ttf" "수리 대상자 목록"
                               (pdf_line str_num (columns table_AB) <$> to_repair))))
    ∧ length to_repair = 1.
Proof.
  destruct (build_repair_pdf_lists_repairs str_num fpdf_output on_disk table_AB "Status")
    as (j & to_repair & to_dispose & Hj & Hrows & Hbuild & Hcounts).
  - by left.
  - in_list.
  - exists to_repair. split; [exact Hbuild |].
    vm_compute in Hj. injection Hj as <-. by rewrite Hrows.
Defined.

Lemma missing_status_column_sample :
  status_counts table_A "State" = Raise (KeyError "State").
Proof.
  apply (missing_status_column str_num fpdf_output offline table_A "State").
  not_in_list.
Defined.

Lemma pdf_button_download_sample :
  ∃ data,
    pdf_button str_num fpdf_output on_disk table_AB "Status"
    = Script [st_download_button "PDF 다운로드" data "repair_list.pdf" "application/pdf"]
        (Done ())
    ∧ data ≠ "".
Proof.
  edestruct (pdf_button_download str_num fpdf_output on_disk table_AB "Status")
    as (Hbutton & _ & Hdata & _).
  - apply list_elem_of_singleton. reflexivity.
  - eexists. split; [exact Hbutton | exact Hdata].
Defined.

Lemma groupby_size_no_empty_group_sample :
  ∃ sizes, groupby_size table_Lab "Dept" = Ok sizes ∧ Forall (λ p, 1 ≤ p.2) sizes.
Proof.
  eexists. split; [reflexivity |].
  apply (groupby_size_no_empty_group table_Lab "Dept"). reflexivity.
Defined.

(** The spec's scenario passes the gate. *)
Lemma main_continues_sample :
  ∃ merged,
    concat_uploads read_excel read_csv [file_A; file_B] = Script [] (Done (Some merged))
    ∧ empty merged = false
    ∧ main read_excel read_csv [file_A; file_B] rest = rest merged.
Proof.
  apply (main_continues read_excel read_csv [file_A; file_B] [table_A; table_B] rest).
  - done.
  - repeat constructor.
  - exists table_A. split; [in_list | vm_compute; lia].
  - exists table_A. split; [in_list | done].
Defined.

(** The spec's scenario: (2, 1, 0) and (1, 0, 1) make (3, 1, 1). *)
Lemma status_counts_add_up_sample :
  ∃ merged counts,
    concat_uploads read_excel read_csv [file_A; file_B] = Script [] (Done (Some merged))
    ∧ Forall2 (λ df c, status_counts df "Status" = Ok c) [table_A; table_B] counts
    ∧ status_counts merged "Status"
      = Ok (sum_list (counts.*1.*1), sum_list (counts.*1.*2), sum_list (counts.*2)).
Proof.
  apply (status_counts_add_up read_excel read_csv [file_A; file_B] [table_A; table_B] "Status").
  - done.
  - repeat constructor.
  - repeat constructor; in_list.
Defined.

(** "HQ-" twice: the second pass changes the table again. *)
Lemma apply_serial_rule_stacks_sample :
  ∃ once twice,
    apply_serial_rule str_num table_HQ "prefix=HQ-" = Ok once
    ∧ apply_serial_rule str_num once "prefix=HQ-" = Ok twice
    ∧ cell twice 0 "Serial" = Some (VText "HQ-HQ-001")
    ∧ twice ≠ once.
Proof.
  eexists _, _. split; [reflexivity |]. split; [reflexivity |]. split; [reflexivity |].
  eapply (proj1 (proj2 (proj2 (apply_serial_rule_stacks str_num table_HQ "HQ-" "")) _ _ _ _)).
  - reflexivity.
  - reflexivity.
  Unshelve.
  + repeat constructor.
  + vm_compute. lia.
  + exists "Serial". apply filter_serial_head. reflexivity.
  + done.
Defined.

(** HQ and Lab merged have a "Dept" column: it is the only department
    option.  A and B have no such column: every column is an option. *)
Lemma selector_options_are_columns_sample :
  ("Dept" ∈ dept_options table_HQ_Lab)
  ∧ ("Name" ∉ dept_options table_HQ_Lab)
  ∧ dept_options table_AB = columns table_AB.
Proof.
  assert (∀ c, c ∈ ["Name"; "Status"] → ¬ keyword_name ["dept"; "department"; "부서"] c)
    as Hnone.
  { intros c Hc Hk%has_keyword_iff. apply list_elem_of_In in Hc. simpl in Hc.
    destruct Hc as [<- | [<- | []]]; vm_compute in Hk; discriminate Hk. }
  assert (keyword_name ["dept"; "department"; "부서"] "Dept") as Hdept
    by (apply has_keyword_iff; reflexivity).
  destruct (selector_options_are_columns table_HQ_Lab) as (Hopt & _ & _).
  split; [| split].
  - apply Hopt. split; [in_list | by left].
  - intros [_ [Hk | Hall]]%Hopt.
    + apply has_keyword_iff in Hk. vm_compute in Hk. discriminate Hk.
    + apply (Hall "Dept"); [in_list | done].
  - by apply (proj1 (proj2 (proj2 (selector_options_are_columns table_AB)))).
Defined.

(** Lab grouped by "Dept": a frame of two groups, one row each. *)
Lemma grouped_count_frame_partition_sample :
  ∃ agg,
    dept_count table_Lab "Dept" = Ok agg
    ∧ sum_list (groups agg).*2 = 2
    ∧ NaN ∈ (groups agg).*1.
Proof.
  destruct (grouped_count_frame_partition table_Lab "Dept")
    as (keys & agg & Hkeys & Hdept & _ & _ & _ & Hsum & _ & Hin & _).
  - in_list.
  - done.
  - exists agg. split; [exact Hdept |]. split; [exact Hsum |].
    apply Hin. vm_compute in Hkeys. injection Hkeys as <-. in_list.
Defined.

End MoreSampleFacts.
